(** * CodePilot-AI-Server: process registry, command sessions and workspace
      file operations

    A shallow embedding of the server's WebSocket command sessions
    ([server.js]), of the monolithic server with the guarded delete
    route (second document of [config.js]), of the storage manager and
    of the files router with its directory listing, followed by the
    properties of the specification that concern them.

    Conventions.
    - JavaScript strings are modelled as [string]; substring and prefix
      tests work on the underlying character sequence.
    - [path] is Node's POSIX implementation; it is library code and is
      modelled at the level of path segments.
    - The server's state is a [World]: the registry, the table of
      processes of the operating system, the children whose listeners
      are attached, the open sockets, and the trace of everything the
      server did (messages sent, log lines, signals, waits, file-system
      calls), in order.
    - What the outside decides (whether a spawn succeeds and under which
      pid, whether a removal fails) is an argument of the handler.
    - Handlers are computations that change the world and either
      complete or throw; [try]/[catch] is an operator on them.
    - Every event handler runs to completion before the next event is
      dispatched (single-threaded event loop); the continuations after
      [await killProcess(..)] are micro-tasks of the same turn. The
      death of a child is identified with the delivery of its [close]
      event. *)

From Stdlib Require Import ZArith NArith Lia Bool Ascii String List.
From Stdlib Require Import Sorting.Sorted Sorting.Permutation.
From stdpp Require Import base option list gmap sets strings.

Local Open Scope string_scope.
Local Open Scope list_scope.

(* ================================================================== *)
(** ** String primitives of the JavaScript runtime *)
(* ================================================================== *)

Module JsString.

(** [s.startsWith(p)] *)
Fixpoint startsWith (s p : string) {struct p} : bool :=
  match p with
  | EmptyString => true
  | String c p' =>
      match s with
      | EmptyString => false
      | String d s' => if Ascii.eqb c d then startsWith s' p' else false
      end
  end.

(** [s.includes(sub)] *)
Fixpoint includes (s sub : string) : bool :=
  if startsWith s sub then true
  else match s with
       | EmptyString => false
       | String _ s' => includes s' sub
       end.

(** [s.replace(/\\/g, '/')] *)
Fixpoint replaceBackslashes (s : string) : string :=
  match s with
  | EmptyString => EmptyString
  | String c s' =>
      String (if Ascii.eqb c "\" then "/"%char else c) (replaceBackslashes s')
  end.

(** [s.replace(/^\/+/, '')] *)
Fixpoint stripLeadingSlashes (s : string) : string :=
  match s with
  | String "/" s' => stripLeadingSlashes s'
  | _ => s
  end.

(** [s.replace(/^workspace\/+/, '')]: the pattern needs at least one
    slash after the word. *)
Definition stripWorkspacePrefix (s : string) : string :=
  if startsWith s "workspace/"
  then stripLeadingSlashes (String.substring 9 (String.length s - 9) s)
  else s.

Definition cleanPath (p : string) : string :=
  stripWorkspacePrefix (stripLeadingSlashes p).

End JsString.

(* ================================================================== *)
(** ** Node's [path] module (POSIX flavour), on segments *)
(* ================================================================== *)

Module Path.

(** The pieces of [s] between slashes; the accumulator holds the
    current piece reversed. *)
Fixpoint split_aux (s : string) (cur : string) : list string :=
  match s with
  | EmptyString => [String.rev cur]
  | String "/" s' => String.rev cur :: split_aux s' EmptyString
  | String c s' => split_aux s' (String c cur)
  end.

Definition split (s : string) : list string := split_aux s EmptyString.

Fixpoint unsplit (segs : list string) : string :=
  match segs with
  | [] => ""
  | [x] => x
  | x :: rest => x +:+ "/" +:+ unsplit rest
  end.

(** [normalizeString]: the stack of kept segments is held reversed. *)
Fixpoint normalizeSegments (allowAboveRoot : bool) (segs stack : list string)
  : list string :=
  match segs with
  | [] => rev stack
  | seg :: rest =>
      if String.eqb seg "" || String.eqb seg "." then
        normalizeSegments allowAboveRoot rest stack
      else if String.eqb seg ".." then
        match stack with
        | top :: below =>
            if String.eqb top ".." then
              normalizeSegments allowAboveRoot rest
                (if allowAboveRoot then ".." :: stack else stack)
            else normalizeSegments allowAboveRoot rest below
        | [] =>
            normalizeSegments allowAboveRoot rest
              (if allowAboveRoot then [".."] else [])
        end
      else normalizeSegments allowAboveRoot rest (seg :: stack)
  end.

Definition isAbsolute (p : string) : bool := JsString.startsWith p "/".

Definition endsWithSlash (p : string) : bool :=
  match String.get (String.length p - 1) p with
  | Some "/"%char => true
  | _ => false
  end.

Definition normalize (p : string) : string :=
  if String.eqb p "" then "."
  else
    let abs := isAbsolute p in
    let trailing := endsWithSlash p in
    let res := unsplit (normalizeSegments (negb abs) (split p) []) in
    if String.eqb res "" then
      (if abs then "/" else if trailing then "./" else ".")
    else
      let res := if trailing then res +:+ "/" else res in
      if abs then "/" +:+ res else res.

(** [path.join(...args)] *)
Definition join (args : list string) : string :=
  match filter (fun a => negb (String.eqb a "")) args with
  | [] => "."
  | parts => normalize (unsplit parts)
  end.

(** [path.resolve(p)] relative to the working directory [wd] of the
    server: an absolute, normalized path without trailing slash. *)
Definition resolveSegments (wd p : string) : list string :=
  normalizeSegments false
    (split (if isAbsolute p then p else wd +:+ "/" +:+ p)) [].

Fixpoint dropCommon (from to : list string) : list string * list string :=
  match from, to with
  | f :: from', t :: to' =>
      if String.eqb f t then dropCommon from' to' else (from, to)
  | _, _ => (from, to)
  end.

(** [path.relative(from, to)] *)
Definition relative (wd from to : string) : string :=
  let '(up, down) := dropCommon (resolveSegments wd from) (resolveSegments wd to) in
  unsplit (map (fun _ => "..") up ++ down).

(** [path.basename(p)] *)
Definition basename (p : string) : string :=
  match rev (filter (fun a => negb (String.eqb a "")) (split p)) with
  | [] => ""
  | last :: _ => last
  end.

End Path.

(* ================================================================== *)
(** ** Data model *)
(* ================================================================== *)

Inductive Platform := Win32 | Posix.

(** [childProcess.pid]: a number, or [undefined] ([None]) when the
    spawn failed. *)
Definition Pid := option N.

(** A WebSocket connection object, compared by identity ([===]). *)
Definition Conn := nat.

Record ChildProcess := { pid : Pid }.

(** The value stored in [activeProcesses]: [{ process, cwd, ws }]. *)
Record ProcessRecord := {
  process : ChildProcess;
  cwd : string;
  ws : Conn
}.

(** JavaScript values that reach [killProcess]. *)
Inductive JsValue :=
| VUndefined
| VNumber (n : N)
| VString (s : string)
| VChild (c : ChildProcess)
| VSocket (c : Conn).

Definition pid_value (p : Pid) : JsValue :=
  match p with
  | Some n => VNumber n
  | None => VUndefined
  end.

(** Property read [r.key] on a stored record. *)
Definition record_get (r : ProcessRecord) (key : string) : JsValue :=
  if String.eqb key "process" then VChild (process r)
  else if String.eqb key "cwd" then VString (cwd r)
  else if String.eqb key "ws" then VSocket (ws r)
  else VUndefined.

(** The result of [JSON.parse]. *)
#[warnings="-register-all"]
Inductive Json :=
| JNull
| JBool (b : bool)
| JNumber (z : Z)
| JString (s : string)
| JArray (items : list Json)
| JObject (fields : list (string * Json)).

(** An inbound text frame: either text that [JSON.parse] rejects, or
    the value it parses to. *)
Inductive Frame :=
| NotJson (text : string)
| Parsed (v : Json).

(** Exit code passed to the [close] listener ([null] after a signal). *)
Definition ExitCode := option Z.

(** Outbound messages, as passed to [JSON.stringify]. *)
Inductive OutputMessage :=
| MsgOutput (content command : string)
| MsgError (content : string) (command : option string)
| MsgClose (code : ExitCode) (command : string)
| MsgCommandComplete (command : string) (code : ExitCode) (message : string).

(** Observable actions of the server, in the order they happen. *)
Inductive Effect :=
| Send (sock : Conn) (m : OutputMessage)      (* ws.send *)
| ConsoleError (label detail : string)        (* console.error *)
| Sigterm (p : N)                             (* SIGTERM delivered to p *)
| Taskkill (arg : JsValue)                    (* taskkill /pid arg /t /f *)
| Sleep (ms : Z)                              (* setTimeout wait *)
| FsRm (path : string)                        (* fs.rm recursive, force *)
| FsUnlink (path : string)                    (* fs.unlink *)
| BlobDel (path : string).                    (* del of the blob store *)

(** A process of the operating system. *)
Record OsProcess := {
  os_command : string;
  os_cwd : string;
  os_env : gmap string string;
  os_signalable : bool       (* may the server signal it? *)
}.

(** The closure shared by the listeners attached to one child. *)
Record Listener := {
  l_child : ChildProcess;
  l_command : string;
  l_ws : Conn
}.

Record World := {
  activeProcesses : list (Pid * ProcessRecord);  (* Map, insertion order *)
  running : gmap N OsProcess;                    (* OS process table *)
  listeners : list Listener;                     (* children with listeners *)
  open_sockets : list Conn;                      (* connections not yet closed *)
  trace : list Effect
}.

Global Instance Platform_eq_dec : EqDecision Platform.
Proof. solve_decision. Defined.
Global Instance ChildProcess_eq_dec : EqDecision ChildProcess.
Proof. solve_decision. Defined.
Global Instance ProcessRecord_eq_dec : EqDecision ProcessRecord.
Proof. solve_decision. Defined.
Global Instance JsValue_eq_dec : EqDecision JsValue.
Proof. solve_decision. Defined.
Global Instance OutputMessage_eq_dec : EqDecision OutputMessage.
Proof. solve_decision. Defined.
Global Instance Effect_eq_dec : EqDecision Effect.
Proof. solve_decision. Defined.
Global Instance Listener_eq_dec : EqDecision Listener.
Proof. solve_decision. Defined.

(* ------------------------------------------------------------------ *)
(** *** The [Map] holding the registry *)

Module JsMap.
Section Ops.
Context {V : Type}.

Fixpoint get (k : Pid) (m : list (Pid * V)) : option V :=
  match m with
  | [] => None
  | (k', v) :: rest => if decide (k' = k) then Some v else get k rest
  end.

(** [m.set(k, v)]: an existing key keeps its position. *)
Fixpoint set (k : Pid) (v : V) (m : list (Pid * V)) : list (Pid * V) :=
  match m with
  | [] => [(k, v)]
  | (k', v') :: rest =>
      if decide (k' = k) then (k, v) :: rest else (k', v') :: set k v rest
  end.

(** [m.delete(k)] *)
Fixpoint delete (k : Pid) (m : list (Pid * V)) : list (Pid * V) :=
  match m with
  | [] => []
  | (k', v') :: rest =>
      if decide (k' = k) then delete k rest else (k', v') :: delete k rest
  end.

Definition keys (m : list (Pid * V)) : list Pid := map fst m.
Definition values (m : list (Pid * V)) : list V := map snd m.

(** Representation invariant of a [Map]: no key occurs twice. *)
Definition wf (m : list (Pid * V)) : Prop := NoDup (keys m).

End Ops.

End JsMap.

(* ================================================================== *)
(** ** Computations that change the world and may throw *)
(* ================================================================== *)

Inductive completion (A : Type) :=
| Normal (a : A)
| Thrown (message : string).
Arguments Normal {A} a.
Arguments Thrown {A} message.

Definition M (A : Type) : Type := World -> World * completion A.

Definition ret {A} (a : A) : M A := fun w => (w, Normal a).
Definition throw {A} (message : string) : M A := fun w => (w, Thrown message).

Definition bind {A B} (m : M A) (k : A -> M B) : M B :=
  fun w =>
    match m w with
    | (w', Normal a) => k a w'
    | (w', Thrown e) => (w', Thrown e)
    end.

(** [try { body } catch (error) { handler(error) }] *)
Definition try_catch {A} (body : M A) (handler : string -> M A) : M A :=
  fun w =>
    match body w with
    | (w', Normal a) => (w', Normal a)
    | (w', Thrown e) => handler e w'
    end.

Notation "'await' x <~ m ; k" := (bind m (fun x => k))
  (at level 10, x name, m at level 100, k at level 200).
Notation "'run' m ; k" := (bind m (fun _ => k))
  (at level 10, m at level 100, k at level 200).

(** [for (const x of xs) { body(x) }] *)
Fixpoint for_of {A} (xs : list A) (body : A -> M unit) : M unit :=
  match xs with
  | [] => ret tt
  | x :: rest => run body x ; for_of rest body
  end.

Definition emit (e : Effect) : M unit :=
  fun w =>
    ({| activeProcesses := activeProcesses w;
        running := running w;
        listeners := listeners w;
        open_sockets := open_sockets w;
        trace := trace w ++ [e] |}, Normal tt).

Definition set_registry (m : list (Pid * ProcessRecord)) (w : World) : World :=
  {| activeProcesses := m;
     running := running w;
     listeners := listeners w;
     open_sockets := open_sockets w;
     trace := trace w |}.

Definition registry_delete (k : Pid) : M unit :=
  fun w => (set_registry (JsMap.delete k (activeProcesses w)) w, Normal tt).

Definition registry_set (k : Pid) (r : ProcessRecord) : M unit :=
  fun w => (set_registry (JsMap.set k r (activeProcesses w)) w, Normal tt).

(** [ws.send(JSON.stringify(m))]: never throws on a server-side socket;
    on a socket that is no longer open the frame is dropped by the
    library, the call itself is still recorded. *)
Definition ws_send (sock : Conn) (m : OutputMessage) : M unit :=
  emit (Send sock m).

Definition console_error (label detail : string) : M unit :=
  emit (ConsoleError label detail).

(* ================================================================== *)
(** ** The server *)
(* ================================================================== *)

(** The surroundings of the server process. *)
Record Config := {
  platform : Platform;                 (* process.platform *)
  process_env : gmap string string;    (* process.env *)
  module_dirname : string;             (* __dirname of the server module *)
  storage_dirname : string;            (* __dirname of utils/storage.js *)
  taskkill_error : option string       (* what launching taskkill throws,
                                          when it cannot be launched *)
}.

(** What the operating system answers to [spawn(command, [], ...)] for
    a well-formed command. *)
Inductive SpawnOutcome :=
| Spawned (p : N)                 (* a child with this pid *)
| SpawnFailsLater (err : string)  (* pid undefined, [error] event follows *)
| SpawnThrows (err : string).     (* exception out of [spawn] *)

Definition CREATED_MESSAGE : string :=
  "React app created successfully! You can now start editing the files.".

Section Server.
Variable cfg : Config.

Definition WORKSPACE_DIR : string :=
  if decide (process_env cfg !! "NODE_ENV" = Some "production")
  then "/tmp/workspace"
  else Path.join [module_dirname cfg; ".."; "workspace"].

(** Environment handed to the child:
    [{ ...process.env, FORCE_COLOR: '1', npm_config_audit: 'false' }] *)
Definition child_env : gmap string string :=
  <["npm_config_audit" := "false"]> (<["FORCE_COLOR" := "1"]> (process_env cfg)).

(** [process.kill(pid, 'SIGTERM')]: throws for a pid that is not a
    number, for a process that does not exist and for one the server
    may not signal. *)
Definition process_kill (v : JsValue) : M unit :=
  fun w =>
    match v with
    | VNumber p =>
        match running w !! p with
        | None => (w, Thrown "kill ESRCH")
        | Some pr =>
            if os_signalable pr then emit (Sigterm p) w
            else (w, Thrown "kill EPERM")
        end
    | _ => (w, Thrown "The pid argument must be of type number")
    end.

(** [spawn('taskkill', ['/pid', pid, '/t', '/f'])]: either the launch
    throws, or the helper runs; what becomes of it is not observed by
    the caller. *)
Definition spawn_taskkill (v : JsValue) : M unit :=
  match taskkill_error cfg with
  | Some e => throw e
  | None => emit (Taskkill v)
  end.

Definition killProcess (pid : JsValue) : M unit :=
  try_catch
    (match platform cfg with
     | Win32 => spawn_taskkill pid
     | Posix => process_kill pid
     end)
    (fun error => console_error "Error killing process" error).

(* ---------------------------------------------------------------- *)
(** *** Listeners of one child process *)

Definition on_stdout (l : Listener) (data : string) : M unit :=
  ws_send (l_ws l) (MsgOutput data (l_command l)).

Definition on_stderr (l : Listener) (data : string) : M unit :=
  ws_send (l_ws l) (MsgError data (Some (l_command l))).

(** [childProcess.on('close', async (code) => ...)] *)
Definition on_child_close (l : Listener) (code : ExitCode) : M unit :=
  run registry_delete (pid (l_child l)) ;
  if JsString.includes (l_command l) "create-react-app"
  then ws_send (l_ws l) (MsgCommandComplete (l_command l) code CREATED_MESSAGE)
  else ws_send (l_ws l) (MsgClose code (l_command l)).

(** [childProcess.on('error', (error) => ...)] *)
Definition on_child_error (l : Listener) (error_message : string) : M unit :=
  run registry_delete (pid (l_child l)) ;
  ws_send (l_ws l) (MsgError error_message (Some (l_command l))).

(* ---------------------------------------------------------------- *)
(** *** [ws.on('message')] *)

Definition JSON_parse (f : Frame) : M Json :=
  match f with
  | NotJson _ => throw "Unexpected token in JSON"
  | Parsed v => ret v
  end.

Fixpoint fields_get (key : string) (fields : list (string * Json))
  : option Json :=
  match fields with
  | [] => None
  | (k, v) :: rest =>
      match fields_get key rest with
      | Some v' => Some v'            (* a later duplicate wins *)
      | None => if String.eqb k key then Some v else None
      end
  end.

(** [data.key]; [None] is [undefined]. *)
Definition json_prop (data : Json) (key : string) : M (option Json) :=
  match data with
  | JNull => throw "Cannot read properties of null"
  | JObject fields => ret (fields_get key fields)
  | _ => ret None
  end.

(** [spawn(command, [], { shell: true, cwd, env })] *)
Definition spawn_shell (command : option Json) (dir : string)
    (env : gmap string string) (o : SpawnOutcome) : M (ChildProcess * string) :=
  match command with
  | Some (JString c) =>
      if String.eqb c EmptyString
      then throw "The argument 'file' cannot be empty"
      else
        match o with
        | Spawned p =>
            fun w =>
              ({| activeProcesses := activeProcesses w;
                  running :=
                    <[p := {| os_command := c; os_cwd := dir;
                              os_env := env; os_signalable := true |}]>
                      (running w);
                  listeners := listeners w;
                  open_sockets := open_sockets w;
                  trace := trace w |},
               Normal ({| pid := Some p |}, c))
        | SpawnFailsLater _ => ret ({| pid := None |}, c)
        | SpawnThrows e => throw e
        end
  | _ => throw "The file argument must be of type string"
  end.

Definition attach_listeners (child : ChildProcess) (command : string)
    (sock : Conn) : M unit :=
  fun w =>
    ({| activeProcesses := activeProcesses w;
        running := running w;
        listeners :=
          listeners w ++
            [{| l_child := child; l_command := command; l_ws := sock |}];
        open_sockets := open_sockets w;
        trace := trace w |}, Normal tt).

Definition command_branch (sock : Conn) (data : Json) (o : SpawnOutcome)
  : M unit :=
  await command <~ json_prop data "command" ;
  let dir := WORKSPACE_DIR in
  await spawned <~ spawn_shell command dir child_env o ;
  let '(childProcess, command) := spawned in
  run registry_set (pid childProcess)
        {| process := childProcess; cwd := dir; ws := sock |} ;
  attach_listeners childProcess command sock.

(** The [stop] branch (its comment: kill all active processes); the
    loop variable [process] is not used by the body.

    Deleting the entry being visited does not disturb the iterator of
    a [Map], and the body neither adds entries nor deletes others, so
    the loop visits exactly the entries present when it starts. *)
Definition stop_branch : M unit :=
  fun w =>
    for_of (activeProcesses w)
      (fun '(pid, process) =>
         run killProcess (pid_value pid) ; registry_delete pid) w.

Definition json_is_string (v : option Json) (s : string) : bool :=
  match v with
  | Some (JString t) => String.eqb t s
  | _ => false
  end.

Definition on_message (sock : Conn) (message : Frame) (o : SpawnOutcome)
  : M unit :=
  try_catch
    (await data <~ JSON_parse message ;
     await type <~ json_prop data "type" ;
     if json_is_string type "command" then command_branch sock data o
     else if json_is_string type "stop" then stop_branch
     else ret tt)
    (fun error =>
       run console_error "Error handling message:" error ;
       ws_send sock (MsgError error None)).

(* ---------------------------------------------------------------- *)
(** *** [ws.on('close')] *)

(** Kill all processes associated with this connection. *)
Definition on_ws_close (sock : Conn) : M unit :=
  fun w =>
    for_of (activeProcesses w)
      (fun '(pid, process) =>
         if decide (ws process = sock)
         then (run killProcess (pid_value pid) ; registry_delete pid)
         else ret tt) w.

(* ---------------------------------------------------------------- *)
(** *** [deleteDirectory] and the delete routes *)

(** [fs.rm(dirPath, { recursive: true, force: true })]; the outcome
    of the call is the file system's. *)
Definition fs_rm (dirPath : string) (outcome : option string) : M unit :=
  run emit (FsRm dirPath) ;
  match outcome with
  | None => ret tt
  | Some e => throw e
  end.

Definition value_includes (v : JsValue) (sub : string) : M bool :=
  match v with
  | VString s => ret (JsString.includes s sub)
  | _ => throw "Cannot read properties of undefined"
  end.

(** The records are read before the wait and nothing is read after
    it, so events dispatched during the wait do not change what this
    function does; they are not interleaved here. *)
Definition deleteDirectory (dirPath : string) (rm_outcome : option string)
  : M unit :=
  try_catch
    (fun w =>
       let processes := JsMap.values (activeProcesses w) in
       (run for_of processes
              (fun process =>
                 await hit <~ value_includes (record_get process "cwd") dirPath ;
                 if hit then killProcess (record_get process "pid")
                 else ret tt) ;
        run emit (Sleep 1000) ;
        fs_rm dirPath rm_outcome) w)
    (fun error =>
       run console_error "Error deleting directory" error ;
       throw error).

End Server.

(* ------------------------------------------------------------------ *)
(** *** HTTP delete routes and the storage manager *)

Inductive ResponseBody :=
| BodySuccess                      (* { success: true } *)
| BodyError (message : string).    (* { error: message } *)

Record Response := { status : Z; body : ResponseBody }.

Definition ACCESS_DENIED : string := "Access denied: Path is outside workspace".

Section Routes.
Variable cfg : Config.

(** The receiver of [req.body.path.replace(...)]. *)
Definition body_path_string (p : option Json) : M string :=
  match p with
  | Some (JString s) => ret s
  | None => throw "Cannot read properties of undefined"
  | Some JNull => throw "Cannot read properties of null"
  | Some _ => throw "req.body.path.replace is not a function"
  end.

(** [try { ... } catch (error) { console.error(label, error);
    res.status(500).json({ error: error.message }) }] *)
Definition respond_catch (label : string) (handler : M Response)
  : World -> World * Response :=
  fun w =>
    match handler w with
    | (w', Normal r) => (w', r)
    | (w', Thrown e) =>
        (fst (console_error label e w'),
         {| status := 500; body := BodyError e |})
    end.

(** [config.js]: the route [DELETE /api/files/delete]. *)
Definition delete_route (path : option Json) (rm_outcome : option string)
  : World -> World * Response :=
  respond_catch "Error deleting file:"
    (await p <~ body_path_string path ;
     let cleanPath := JsString.cleanPath p in
     let targetPath := Path.join [WORKSPACE_DIR cfg; cleanPath] in
     if negb (JsString.startsWith targetPath (WORKSPACE_DIR cfg))
     then ret {| status := 403; body := BodyError ACCESS_DENIED |}
     else
       run deleteDirectory cfg targetPath rm_outcome ;
       ret {| status := 200; body := BodySuccess |}).

Definition LOCAL_WORKSPACE_DIR : string :=
  Path.join [storage_dirname cfg; ".."; ".."; "workspace"].

Definition isProduction : bool :=
  bool_decide (process_env cfg !! "NODE_ENV" = Some "production").

Definition settle (outcome : option string) : M unit :=
  match outcome with
  | None => ret tt
  | Some e => throw e
  end.

(** [StorageManager.deleteFile(path)]; [outcome] is what the blob
    store or the file system answers. *)
Definition deleteFile (path : string) (outcome : option string) : M unit :=
  if isProduction then
    run emit (BlobDel path) ; settle outcome
  else
    let fullPath := Path.join [LOCAL_WORKSPACE_DIR; path] in
    run emit (FsUnlink fullPath) ; settle outcome.

(** [server.js]: the route [DELETE /api/files/:path]. *)
Definition storage_delete_route (path : string) (outcome : option string)
  : World -> World * Response :=
  respond_catch "Error deleting file:"
    (run deleteFile path outcome ;
     ret {| status := 200; body := BodySuccess |}).

End Routes.

(** Does [target] lie in the tree rooted at [root]? *)
Definition inside_root (root target : string) : bool :=
  String.eqb target root || JsString.startsWith target (root +:+ "/").

Definition is_send (e : Effect) : bool :=
  match e with
  | Send _ _ => true
  | _ => false
  end.

(* ------------------------------------------------------------------ *)
(** *** The event loop *)

Definition initial_world (os : gmap N OsProcess) : World :=
  {| activeProcesses := [];
     running := os;
     listeners := [];
     open_sockets := [];
     trace := [] |}.

Definition accept (sock : Conn) (w : World) : World :=
  {| activeProcesses := activeProcesses w;
     running := running w;
     listeners := listeners w;
     open_sockets := sock :: open_sockets w;
     trace := trace w |}.

Definition hang_up (sock : Conn) (w : World) : World :=
  {| activeProcesses := activeProcesses w;
     running := running w;
     listeners := listeners w;
     open_sockets := filter (fun s => s ≠ sock) (open_sockets w);
     trace := trace w |}.

Fixpoint remove_first (l : Listener) (ls : list Listener) : list Listener :=
  match ls with
  | [] => []
  | l' :: rest => if decide (l' = l) then rest else l' :: remove_first l rest
  end.

(** The child is gone: the operating system forgets its pid and the
    [close] event, the last one of the child, is being delivered. *)
Definition reap (l : Listener) (w : World) : World :=
  {| activeProcesses := activeProcesses w;
     running :=
       match pid (l_child l) with
       | Some p => delete p (running w)
       | None => running w
       end;
     listeners := remove_first l (listeners w);
     open_sockets := open_sockets w;
     trace := trace w |}.

(** Processes that are not children of the server come and go. *)
Definition os_start (p : N) (pr : OsProcess) (w : World) : World :=
  {| activeProcesses := activeProcesses w;
     running := <[p := pr]> (running w);
     listeners := listeners w;
     open_sockets := open_sockets w;
     trace := trace w |}.

Definition os_exit (p : N) (w : World) : World :=
  {| activeProcesses := activeProcesses w;
     running := delete p (running w);
     listeners := listeners w;
     open_sockets := open_sockets w;
     trace := trace w |}.

Definition pid_is_free (o : SpawnOutcome) (w : World) : Prop :=
  match o with
  | Spawned p => running w !! p = None
  | _ => True
  end.

Inductive step (cfg : Config) : World -> World -> Prop :=
| step_connect sock w :
    ~ In sock (open_sockets w) ->
    step cfg w (accept sock w)
| step_message sock message o w :
    In sock (open_sockets w) -> pid_is_free o w ->
    step cfg w (fst (on_message cfg sock message o w))
| step_stdout l data w :
    In l (listeners w) ->
    step cfg w (fst (on_stdout l data w))
| step_stderr l data w :
    In l (listeners w) ->
    step cfg w (fst (on_stderr l data w))
| step_child_error l err w :
    In l (listeners w) ->
    step cfg w (fst (on_child_error l err w))
| step_child_close l code w :
    In l (listeners w) ->
    step cfg w (fst (on_child_close l code (reap l w)))
| step_socket_close sock w :
    In sock (open_sockets w) ->
    step cfg w (fst (on_ws_close cfg sock (hang_up sock w)))
| step_delete path rm_outcome w :
    step cfg w (fst (delete_route cfg path rm_outcome w))
| step_storage_delete path outcome w :
    step cfg w (fst (storage_delete_route cfg path outcome w))
| step_os_start p pr w :
    running w !! p = None ->
    step cfg w (os_start p pr w)
| step_os_exit p w :
    (forall l, In l (listeners w) -> pid (l_child l) <> Some p) ->
    step cfg w (os_exit p w).

Inductive reachable (cfg : Config) : World -> Prop :=
| reachable_init os : reachable cfg (initial_world os)
| reachable_step w w' : reachable cfg w -> step cfg w w' -> reachable cfg w'.

(* ================================================================== *)
(** ** The directory listing of the files router *)
(* ================================================================== *)

Module Files.

Inductive FileType := Directory | File.

Record Stats := { isDirectory : bool; st_size : Z; st_mtime : Z }.

(** The part of [fs] the listing reads: [None] is a rejected promise. *)
Record FileSystem := {
  readdir : string -> option (list string);
  stat : string -> option Stats
  }.

Record FileInfo := {
  name : string;
  path : string;
  type : FileType;
  size : Z;
  modified : Z;
  children : option bool       (* only set on directories *)
  }.

(** [Array.prototype.sort(compare)]: the sort is stable; for a
    consistent comparator every stable sort returns the same array. *)
Section Sort.
Context {A : Type} (compare : A -> A -> Z).

Fixpoint sort_insert (x : A) (l : list A) : list A :=
  match l with
  | [] => [x]
  | y :: rest =>
      if (compare x y <=? 0)%Z then x :: y :: rest
      else y :: sort_insert x rest
  end.

Fixpoint array_sort (l : list A) : list A :=
  match l with
  | [] => []
  | x :: rest => sort_insert x (array_sort rest)
  end.

End Sort.

(** [Promise.all]: the results in order, or the first rejection. *)
Fixpoint promise_all {A} (ps : list (completion A)) : completion (list A) :=
  match ps with
  | [] => Normal []
  | Thrown e :: _ => Thrown e
  | Normal a :: rest =>
      match promise_all rest with
      | Normal l => Normal (a :: l)
      | Thrown e => Thrown e
      end
  end.

Section Listing.
Variable config_dirname : string.     (* __dirname of config.js *)
Variable wd : string.                 (* process.cwd() *)
Variable fs : FileSystem.
Variable localeCompare : string -> string -> Z.

Definition workspacePath : string :=
  Path.join [config_dirname; ".."; "workspace"].

(** The [catch] branch logs and answers ['file']. *)
Definition getFileType (filePath : string) : FileType :=
  match stat fs filePath with
  | Some stats =>
      if isDirectory stats then Directory
      else if JsString.startsWith (Path.basename filePath) "." then File
      else File
  | None => File
  end.

Definition getFileInfo (filePath : string) : completion FileInfo :=
  match stat fs filePath with
  | None => Thrown "ENOENT: no such file or directory, stat"
  | Some stats =>
      Normal {| name := Path.basename filePath;
                path := JsString.replaceBackslashes
                          (Path.relative wd workspacePath filePath);
                type := getFileType filePath;
                size := st_size stats;
                modified := st_mtime stats;
                children := None |}
  end.

Definition with_children (fileInfo : FileInfo) (flag : bool) : FileInfo :=
  {| name := name fileInfo;
     path := path fileInfo;
     type := type fileInfo;
     size := size fileInfo;
     modified := modified fileInfo;
     children := Some flag |}.

(** The callback mapped over the directory entries. *)
Definition entry_info (dirPath entry_name : string) : completion FileInfo :=
  let entryPath := Path.join [dirPath; entry_name] in
  match getFileInfo entryPath with
  | Thrown e => Thrown e
  | Normal fileInfo =>
      match type fileInfo with
      | Directory =>
          match readdir fs entryPath with
          | Some children =>
              Normal (with_children fileInfo (Nat.ltb 0 (List.length children)))
          | None => Normal (with_children fileInfo false)
          end
      | File => Normal fileInfo
      end
  end.

Definition compare_entries (a b : FileInfo) : Z :=
  match type a, type b with
  | Directory, File => -1
  | File, Directory => 1
  | _, _ => localeCompare (name a) (name b)
  end.

Definition getDirectoryContents (dirPath : string)
  : completion (list FileInfo) :=
  match readdir fs dirPath with
  | None => Thrown "ENOENT: no such file or directory, scandir"
  | Some entries =>
      match promise_all (map (entry_info dirPath) entries) with
      | Thrown e => Thrown e
      | Normal contents => Normal (array_sort compare_entries contents)
      end
  end.

End Listing.

(** [router.post('/delete')] of the files router: the target is only
    tested for existence; [outcome] is what the file system answers to
    the removal. Every failure is reported with the same text. *)
Definition router_delete (config_dirname : string) (fs : FileSystem)
    (filePath : option Json) (outcome : option string)
  : World -> World * Response :=
  fun w =>
    let handler : M Response :=
      match filePath with
      | Some (JString p) =>
          let fullPath := Path.join [workspacePath config_dirname; p] in
          match stat fs fullPath with
          | None => ret {| status := 404; body := BodyError "File not found" |}
          | Some stats =>
              run emit (if isDirectory stats then FsRm fullPath
                        else FsUnlink fullPath) ;
              run settle outcome ;
              ret {| status := 200; body := BodySuccess |}
          end
      | _ => throw "The path argument must be of type string"
      end in
    match handler w with
    | (w', Normal r) => (w', r)
    | (w', Thrown e) =>
        (fst (console_error "Error deleting file:" e w'),
         {| status := 500; body := BodyError "Failed to delete file" |})
    end.

(** Order by character code, a stand-in for a collation. *)
Fixpoint codeCompare (a b : string) : Z :=
  match a, b with
  | EmptyString, EmptyString => 0
  | EmptyString, String _ _ => -1
  | String _ _, EmptyString => 1
  | String c a', String d b' =>
      match (nat_of_ascii c ?= nat_of_ascii d)%nat with
      | Lt => -1
      | Gt => 1
      | Eq => codeCompare a' b'
      end
  end.

(** [a] does not sort after [b] under the comparator. *)
Definition not_after {A : Type} (compare : A -> A -> Z) (a b : A) : Prop :=
  (compare a b <= 0)%Z.

Definition is_dir (e : FileInfo) : bool :=
  match type e with
  | Directory => true
  | File => false
  end.

(** [a] does not come after [b] in the collation of names. *)
Definition name_le (localeCompare : string -> string -> Z)
    (a b : FileInfo) : Prop :=
  (localeCompare (name a) (name b) <= 0)%Z.

(** The [path] the listing reports for the entry called [n]. *)
Definition listed_path (config_dirname wd dirPath n : string) : string :=
  JsString.replaceBackslashes
    (Path.relative wd (workspacePath config_dirname) (Path.join [dirPath; n])).

(** A small workspace: two files and a directory, listed by the file
    system in no particular order. *)
Definition demo_fs : FileSystem :=
  {| readdir := fun p =>
       if String.eqb p "/srv/app/workspace" then Some ["b.txt"; "src"; "a.txt"]
       else if String.eqb p "/srv/app/workspace/src" then Some ["index.js"]
       else None;
     stat := fun p =>
       if String.eqb p "/srv/app/workspace/src"
       then Some {| isDirectory := true; st_size := 4096; st_mtime := 3 |}
       else if String.eqb p "/srv/app/workspace/a.txt"
       then Some {| isDirectory := false; st_size := 12; st_mtime := 1 |}
       else if String.eqb p "/srv/app/workspace/b.txt"
       then Some {| isDirectory := false; st_size := 7; st_mtime := 2 |}
       else None |}.

End Files.

(* ================================================================== *)
(** ** Vocabulary of the properties *)
(* ================================================================== *)

Definition add_effects (es : list Effect) (w : World) : World :=
  {| activeProcesses := activeProcesses w;
     running := running w;
     listeners := listeners w;
     open_sockets := open_sockets w;
     trace := trace w ++ es |}.

(** What one call of [killProcess] adds to the trace. *)
Definition kill_effect (cfg : Config) (os : gmap N OsProcess) (v : JsValue)
  : Effect :=
  match platform cfg with
  | Win32 =>
      match taskkill_error cfg with
      | Some e => ConsoleError "Error killing process" e
      | None => Taskkill v
      end
  | Posix =>
      match v with
      | VNumber p =>
          match os !! p with
          | None => ConsoleError "Error killing process" "kill ESRCH"
          | Some pr =>
              if os_signalable pr then Sigterm p
              else ConsoleError "Error killing process" "kill EPERM"
          end
      | _ =>
          ConsoleError "Error killing process"
            "The pid argument must be of type number"
      end
  end.

(** Deleting several keys, in order. *)
Fixpoint delete_keys (ks : list Pid) (m : list (Pid * ProcessRecord))
  : list (Pid * ProcessRecord) :=
  match ks with
  | [] => m
  | k :: rest => delete_keys rest (JsMap.delete k m)
  end.

(** The loop shared by [stop] and the socket's [close]: every selected
    entry is signalled and deleted, in registry order. *)
Definition kill_selected (cfg : Config) (select : ProcessRecord -> bool)
    (entries : list (Pid * ProcessRecord)) : M unit :=
  for_of entries
    (fun '(pid, process) =>
       if select process
       then (run killProcess cfg (pid_value pid) ; registry_delete pid)
       else ret tt).

Definition selected (select : ProcessRecord -> bool)
    (entries : list (Pid * ProcessRecord)) : list Pid :=
  JsMap.keys (List.filter (fun e => select (snd e)) entries).

(** The world after a child was spawned (if [os] says so) and
    registered, as the [command] branch leaves it. *)
Definition os_spawn (cfg : Config) (c : string) (p : N) (w : World) : World :=
  {| activeProcesses := activeProcesses w;
     running :=
       <[p := {| os_command := c; os_cwd := WORKSPACE_DIR cfg;
                 os_env := child_env cfg; os_signalable := true |}]> (running w);
     listeners := listeners w;
     open_sockets := open_sockets w;
     trace := trace w |}.

Definition register_child (cfg : Config) (sock : Conn) (c : string)
    (child : ChildProcess) (w : World) : World :=
  {| activeProcesses :=
       JsMap.set (pid child)
         {| process := child; cwd := WORKSPACE_DIR cfg; ws := sock |}
         (activeProcesses w);
     running := running w;
     listeners :=
       listeners w ++ [{| l_child := child; l_command := c; l_ws := sock |}];
     open_sockets := open_sockets w;
     trace := trace w |}.

Definition report_error (sock : Conn) (e : string) (w : World) : World :=
  add_effects [Send sock (MsgError e None)]
    (add_effects [ConsoleError "Error handling message:" e] w).

(** Every way [ws.on('message')] can go. *)
Inductive message_result (cfg : Config) (sock : Conn) (o : SpawnOutcome)
    (w : World) : World -> Prop :=
| result_ignored : message_result cfg sock o w w
| result_error e : message_result cfg sock o w (report_error sock e w)
| result_stopped : message_result cfg sock o w (fst (stop_branch cfg w))
| result_spawned c p :
    o = Spawned p ->
    message_result cfg sock o w
      (register_child cfg sock c {| pid := Some p |} (os_spawn cfg c p w))
| result_spawn_failed c err :
    o = SpawnFailsLater err ->
    message_result cfg sock o w
      (register_child cfg sock c {| pid := None |} w).

(** The termination request for [p] can be issued: [p] is a live
    process the server is allowed to signal (every child it spawned is,
    while it lives) or, on Windows, the helper can be launched. *)
Definition signalable (cfg : Config) (w : World) (p : N) : Prop :=
  match platform cfg with
  | Win32 => taskkill_error cfg = None
  | Posix =>
      match running w !! p with
      | Some pr => os_signalable pr = true
      | None => False
      end
  end.

(** Among [es] is the platform's termination request for [p]. *)
Definition terminated_by (cfg : Config) (p : N) (es : list Effect) : Prop :=
  match platform cfg with
  | Win32 => In (Taskkill (VNumber p)) es
  | Posix => In (Sigterm p) es
  end.

(** C1 as stated: every entry refers to a live process. *)
Definition registry_live (w : World) : Prop :=
  forall k r,
    JsMap.get k (activeProcesses w) = Some r ->
    exists p, k = Some p /\ is_Some (running w !! p).

(** What the code maintains: every entry belongs to a child whose
    listeners are still waiting for its events, and an entry under a
    pid belongs to a live process. An entry under [undefined] is that
    of a child that failed to spawn. *)
Definition registry_sound (w : World) : Prop :=
  forall k r,
    JsMap.get k (activeProcesses w) = Some r ->
    (exists l, In l (listeners w) /\ pid (l_child l) = k) /\
    match k with
    | Some p => is_Some (running w !! p)
    | None => True
    end.

(** The registered records whose [cwd] contains [dirPath]. *)
Definition directory_users (dirPath : string) (w : World) : list ProcessRecord :=
  List.filter (fun r => JsString.includes (cwd r) dirPath)
    (JsMap.values (activeProcesses w)).

Definition rm_log (rm_outcome : option string) : list Effect :=
  match rm_outcome with
  | None => []
  | Some e => [ConsoleError "Error deleting directory" e]
  end.

(* ================================================================== *)
(** ** A concrete deployment, used for examples *)
(* ================================================================== *)

Module Scenario.
Definition cfg : Config :=
  {| platform := Posix;
     process_env := ∅;
     module_dirname := "/srv/app/src";
     storage_dirname := "/srv/app/src/utils";
     taskkill_error := None |}.

Definition quiet : World := initial_world ∅.

Definition command_frame (c : string) : Frame :=
  Parsed (JObject [("type", JString "command"); ("command", JString c)]).

Definition stop_frame : Frame := Parsed (JObject [("type", JString "stop")]).

(** Two clients are connected; client 1 runs [npm start] as pid 5 and
    client 2 runs [sleep 100] as pid 7. *)
Definition two_clients : World :=
  fst (on_message cfg 2 (command_frame "sleep 100") (Spawned 7)
         (fst (on_message cfg 1 (command_frame "npm start") (Spawned 5)
                 (accept 2 (accept 1 quiet))))).

(** The shell could not be started (for instance because the
    workspace directory is gone): the child has no pid. *)
Definition failed_spawn : World :=
  fst (on_message cfg 1 (command_frame "npm test")
         (SpawnFailsLater "spawn /bin/sh ENOENT") (accept 1 quiet)).

End Scenario.

(** Client 1 runs [sleep 100] as pid 4242, in the workspace directory. *)
Definition sleeping : World :=
  fst (on_message Scenario.cfg 1 (Scenario.command_frame "sleep 100")
         (Spawned 4242) (accept 1 Scenario.quiet)).

(* ================================================================== *)
(** ** Further vocabulary: streams, tags, guarded targets *)
(* ================================================================== *)

(** One chunk read from a child, on either of its streams. *)
Inductive Chunk :=
| Stdout (data : string)
| Stderr (data : string).

(** The [data] listener of the stream the chunk arrived on. *)
Definition on_chunk (l : Listener) (chunk : Chunk) : M unit :=
  match chunk with
  | Stdout data => on_stdout l data
  | Stderr data => on_stderr l data
  end.

(** The message a chunk is wrapped in. *)
Definition chunk_message (l : Listener) (chunk : Chunk) : OutputMessage :=
  match chunk with
  | Stdout data => MsgOutput data (l_command l)
  | Stderr data => MsgError data (Some (l_command l))
  end.

(** The closure the [command] branch attaches to the child it spawned. *)
Definition listener_of (sock : Conn) (c : string) (child : Pid) : Listener :=
  {| l_child := {| pid := child |}; l_command := c; l_ws := sock |}.

(** The message sent when a child closes. *)
Definition completion_message (c : string) (code : ExitCode) : OutputMessage :=
  if JsString.includes c "create-react-app"
  then MsgCommandComplete c code CREATED_MESSAGE
  else MsgClose code c.

(** What every registry entry carries: it is stored under the pid of
    its own child, its working directory is the workspace directory,
    and its owner is a socket that is still open. *)
Definition registry_tagged (cfg : Config) (w : World) : Prop :=
  forall k r,
    In (k, r) (activeProcesses w) ->
    pid (process r) = k /\
    cwd r = WORKSPACE_DIR cfg /\
    In (ws r) (open_sockets w).

(** The entries of other owners, in registry order. *)
Definition others (sock : Conn) (m : list (Pid * ProcessRecord))
  : list (Pid * ProcessRecord) :=
  List.filter (fun e => negb (bool_decide (ws (snd e) = sock))) m.

(** A segment as a directory entry is named: not empty, not [.] or
    [..], and without a slash. *)
Definition plain_segment (seg : string) : Prop :=
  seg <> EmptyString /\ seg <> "." /\ seg <> ".." /\
  JsString.includes seg "/" = false.

(** The absolute, normalized path made of the given segments. *)
Definition abs_path (segs : list string) : string :=
  "/" +:+ Path.unsplit segs.

(** The segment survives normalization: it is neither empty nor [.]. *)
Definition kept (seg : string) : bool :=
  negb (String.eqb seg EmptyString || String.eqb seg ".").

(** What an entry [e] of a listing of [dirPath] says, measured against
    the file system: under the name of [e] the directory holds an
    object whose kind, size and modification time are those of [e], and
    only a directory carries the flag telling whether it has entries. *)
Definition describes (fs : Files.FileSystem) (dirPath : string)
    (e : Files.FileInfo) : Prop :=
  let entryPath := Path.join [dirPath; Files.name e] in
  exists st,
    Files.stat fs entryPath = Some st /\
    Files.type e =
      (if Files.isDirectory st then Files.Directory else Files.File) /\
    Files.size e = Files.st_size st /\
    Files.modified e = Files.st_mtime st /\
    Files.children e =
      (if Files.isDirectory st then
         Some (match Files.readdir fs entryPath with
               | Some kids => Nat.ltb 0 (List.length kids)
               | None => false
               end)
       else None).

(* ================================================================== *)
(** * Facts *)
(* ================================================================== *)

(* ================================================================== *)
(** ** Strings and paths *)
(* ================================================================== *)

Module JsStringFacts.
Import JsString.

Lemma startsWith_spec s p :
  startsWith s p = true <-> exists r, s = p +:+ r.
Proof.
  revert s; induction p as [|c p IH]; intros s; simpl.
  - split; [intros _; by exists s | done].
  - destruct s as [|d s].
    + split; [discriminate | intros [r Hr]; discriminate].
    + destruct (Ascii.eqb_spec c d) as [->|Hne].
      * rewrite IH. split; intros [r Hr]; exists r.
        -- by rewrite Hr.
        -- by injection Hr.
      * split; [discriminate | intros [r Hr]; injection Hr; congruence].
Qed.

Lemma startsWith_refl s : startsWith s s = true.
Proof.
  induction s as [|c s IH]; simpl; [done|]. by rewrite Ascii.eqb_refl.
Qed.

Lemma startsWith_app s p q :
  startsWith s (p +:+ q) = true -> startsWith s p = true.
Proof.
  revert s. induction p as [|c p IH]; intros s; simpl; [done|].
  destruct s as [|d s]; [done|]. destruct (Ascii.eqb c d); [apply IH|done].
Qed.

Lemma includes_spec s sub :
  includes s sub = true <-> exists a b, s = a +:+ sub +:+ b.
Proof.
  induction s as [|c s IH]; simpl.
  - destruct (startsWith "" sub) eqn:E.
    + apply startsWith_spec in E as [r Hr]. split; [|done].
      intros _. by exists "", r.
    + split; [discriminate|]. intros (a & b & Hab).
      destruct a; [|discriminate]. simpl in Hab.
      assert (startsWith "" sub = true) by (apply startsWith_spec; eauto).
      congruence.
  - destruct (startsWith (String c s) sub) eqn:E.
    + apply startsWith_spec in E as [r Hr]. split; [|done].
      intros _. by exists "", r.
    + rewrite IH. split.
      * intros (a & b & ->). by exists (String c a), b.
      * intros (a & b & Hab). destruct a as [|c' a]; simpl in Hab.
        -- assert (startsWith (String c s) sub = true)
             by (apply startsWith_spec; eauto).
           congruence.
        -- injection Hab as _ ->. eauto.
Qed.

Lemma replaceBackslashes_clean s :
  includes (replaceBackslashes s) "\" = false.
Proof.
  induction s as [|c s IH]; [done|].
  cbn [replaceBackslashes].
  set (d := if Ascii.eqb c "\" then "/"%char else c).
  assert (Hd : Ascii.eqb "\" d = false).
  { subst d. destruct (Ascii.eqb_spec c "\") as [->|Hne]; [done|].
    apply Ascii.eqb_neq. congruence. }
  cbn [includes startsWith]. rewrite Hd. exact IH.
Qed.

End JsStringFacts.

Example join_dotdot :
  Path.join ["/srv/app/workspace"; "../etc/passwd"] = "/srv/app/etc/passwd".
Proof. reflexivity. Qed.

Example join_sibling :
  Path.join ["/srv/app/workspace"; "../workspace-old/x"] = "/srv/app/workspace-old/x".
Proof. reflexivity. Qed.

Example join_root_dir :
  Path.join ["/srv/app/src"; ".."; "workspace"] = "/srv/app/workspace".
Proof. reflexivity. Qed.

Example relative_nested :
  Path.relative "/" "/srv/app/workspace" "/srv/app/workspace/src/a.js" = "src/a.js".
Proof. reflexivity. Qed.

Example cleanPath_strips :
  JsString.cleanPath "//workspace//src/a.js" = "src/a.js".
Proof. reflexivity. Qed.

Example cleanPath_needs_slash : JsString.cleanPath "workspace" = "workspace".
Proof. reflexivity. Qed.

Example normalize_keeps_trailing_slash :
  Path.normalize "/a/./b//c/" = "/a/b/c/".
Proof. reflexivity. Qed.

Example join_above_relative_root : Path.join ["a"; "../../b"] = "../b".
Proof. reflexivity. Qed.

Example join_stops_at_root : Path.join ["/a"; "../../.."] = "/".
Proof. reflexivity. Qed.

Example relative_sibling : Path.relative "/" "/a/b" "/a/c/d" = "../c/d".
Proof. reflexivity. Qed.

Example basename_ignores_trailing_slash : Path.basename "/a/b/" = "b".
Proof. reflexivity. Qed.

(* ================================================================== *)
(** ** The registry as a [Map] *)
(* ================================================================== *)

Module JsMapFacts.
Import JsMap.

Section Facts.
Context {V : Type}.

Lemma get_delete_eq k (m : list (Pid * V)) : get k (delete k m) = None.
Proof.
  induction m as [|[k' v'] m IH]; simpl; [done|].
  destruct (decide (k' = k)); simpl; [done|].
  by destruct (decide (k' = k)).
Qed.

Lemma get_delete_ne k k' (m : list (Pid * V)) :
  k ≠ k' -> get k' (delete k m) = get k' m.
Proof.
  intros Hne. induction m as [|[k0 v0] m IH]; simpl; [done|].
  destruct (decide (k0 = k)) as [->|]; simpl.
  - destruct (decide (k = k')); [done|]. exact IH.
  - destruct (decide (k0 = k')); [done|]. exact IH.
Qed.

Lemma get_set_eq k v (m : list (Pid * V)) : get k (set k v m) = Some v.
Proof.
  induction m as [|[k' v'] m IH]; simpl.
  - by destruct (decide (k = k)).
  - destruct (decide (k' = k)); simpl.
    + by destruct (decide (k = k)).
    + by destruct (decide (k' = k)).
Qed.

Lemma get_set_ne k k' v (m : list (Pid * V)) :
  k ≠ k' -> get k' (set k v m) = get k' m.
Proof.
  intros Hne. induction m as [|[k0 v0] m IH]; simpl.
  - by destruct (decide (k = k')).
  - destruct (decide (k0 = k)) as [->|]; simpl.
    + by destruct (decide (k = k')).
    + destruct (decide (k0 = k')); [done|]. exact IH.
Qed.

Lemma get_Some_In k v (m : list (Pid * V)) : get k m = Some v -> In (k, v) m.
Proof.
  induction m as [|[k' v'] m IH]; simpl; [done|].
  destruct (decide (k' = k)) as [->|]; [intros [= ->]; by left|].
  intros H. right. by apply IH.
Qed.

Lemma In_get k v (m : list (Pid * V)) :
  wf m -> In (k, v) m -> get k m = Some v.
Proof.
  unfold wf, keys. induction m as [|[k' v'] m IH]; simpl; [done|].
  intros Hnd Hin. apply NoDup_cons in Hnd as [Hnotin Hnd].
  destruct Hin as [[= -> ->]|Hin].
  - by destruct (decide (k = k)).
  - destruct (decide (k' = k)) as [->|]; [|by apply IH].
    exfalso. apply Hnotin. apply list_elem_of_In.
    apply in_map_iff. by exists (k, v).
Qed.

Lemma keys_delete_incl k k' (m : list (Pid * V)) :
  In k' (keys (delete k m)) -> In k' (keys m).
Proof.
  unfold keys. induction m as [|[k0 v0] m IH]; simpl; [done|].
  destruct (decide (k0 = k)); simpl; tauto.
Qed.

Lemma wf_delete k (m : list (Pid * V)) : wf m -> wf (delete k m).
Proof.
  unfold wf. induction m as [|[k0 v0] m IH]; simpl; [done|].
  intros Hnd. apply NoDup_cons in Hnd as [Hnotin Hnd].
  destruct (decide (k0 = k)); [by apply IH|].
  simpl. apply NoDup_cons. split; [|by apply IH].
  rewrite list_elem_of_In. intros Hin. apply Hnotin.
  apply list_elem_of_In. by apply keys_delete_incl in Hin.
Qed.

Lemma keys_set k v (m : list (Pid * V)) k' :
  In k' (keys (set k v m)) <-> k' = k \/ In k' (keys m).
Proof.
  unfold keys. induction m as [|[k0 v0] m IH]; simpl.
  - intuition congruence.
  - destruct (decide (k0 = k)) as [->|]; simpl.
    + intuition congruence.
    + rewrite IH. tauto.
Qed.

Lemma wf_set k v (m : list (Pid * V)) : wf m -> wf (set k v m).
Proof.
  unfold wf. induction m as [|[k0 v0] m IH]; simpl.
  - intros _. apply NoDup_cons. split; [apply not_elem_of_nil|constructor].
  - intros Hnd. apply NoDup_cons in Hnd as [Hnotin Hnd].
    destruct (decide (k0 = k)) as [->|Hne]; simpl.
    + apply NoDup_cons. by split.
    + apply NoDup_cons. split; [|by apply IH].
      rewrite list_elem_of_In. intros Hin.
      apply (keys_set k v m k0) in Hin as [?|Hin]; [done|].
      apply Hnotin. by apply list_elem_of_In.
Qed.

End Facts.
End JsMapFacts.

(* ================================================================== *)
(** ** Basic facts about the handlers *)
(* ================================================================== *)

Lemma world_eq (w1 w2 : World) :
  activeProcesses w1 = activeProcesses w2 ->
  running w1 = running w2 ->
  listeners w1 = listeners w2 ->
  open_sockets w1 = open_sockets w2 ->
  trace w1 = trace w2 ->
  w1 = w2.
Proof. destruct w1, w2; simpl; intros; subst; reflexivity. Qed.

Lemma add_effects_nil w : add_effects [] w = w.
Proof. apply world_eq; simpl; auto using app_nil_r. Qed.

Lemma killProcess_spec cfg v w :
  killProcess cfg v w = (add_effects [kill_effect cfg (running w) v] w, Normal tt).
Proof.
  unfold killProcess, kill_effect, try_catch.
  destruct (platform cfg);
    [unfold spawn_taskkill; by destruct (taskkill_error cfg)|].
  unfold process_kill.
  destruct v as [|p| | |]; try reflexivity.
  destruct (running w !! p) as [pr|]; [|reflexivity].
  destruct (os_signalable pr); reflexivity.
Qed.

Lemma kill_effect_not_send cfg os v : is_send (kill_effect cfg os v) = false.
Proof.
  unfold kill_effect.
  destruct (platform cfg); [by destruct (taskkill_error cfg)|].
  destruct v as [|p| | |]; try done.
  destruct (os !! p) as [pr|]; [|done]. by destruct (os_signalable pr).
Qed.

Lemma keys_delete k k' (m : list (Pid * ProcessRecord)) :
  In k' (JsMap.keys (JsMap.delete k m)) <-> k' ≠ k /\ In k' (JsMap.keys m).
Proof.
  unfold JsMap.keys. induction m as [|[k0 v0] m IH]; simpl; [tauto|].
  destruct (decide (k0 = k)) as [->|Hne]; simpl; rewrite IH.
  - intuition congruence.
  - intuition congruence.
Qed.

Lemma delete_keys_all ks (m : list (Pid * ProcessRecord)) :
  (forall k, In k (JsMap.keys m) -> In k ks) -> delete_keys ks m = [].
Proof.
  revert m. induction ks as [|k ks IH]; intros m Hsub; simpl.
  - destruct m as [|[k v] m]; [done|]. exfalso. apply (Hsub k). by left.
  - apply IH. intros k' Hk'. apply keys_delete in Hk' as [Hne Hin].
    destruct (Hsub k' Hin) as [->|]; [done|assumption].
Qed.

Lemma get_delete_keys_None ks k (m : list (Pid * ProcessRecord)) :
  JsMap.get k m = None -> JsMap.get k (delete_keys ks m) = None.
Proof.
  revert m. induction ks as [|k0 ks IH]; intros m Hm; simpl; [done|].
  apply IH. destruct (decide (k0 = k)) as [->|Hne].
  - apply JsMapFacts.get_delete_eq.
  - by rewrite JsMapFacts.get_delete_ne.
Qed.

Lemma get_delete_keys_in ks k (m : list (Pid * ProcessRecord)) :
  In k ks -> JsMap.get k (delete_keys ks m) = None.
Proof.
  revert m. induction ks as [|k0 ks IH]; intros m Hin; simpl; [done|].
  destruct Hin as [->|Hin]; [|by apply IH].
  apply get_delete_keys_None, JsMapFacts.get_delete_eq.
Qed.

Lemma get_delete_keys_notin ks k (m : list (Pid * ProcessRecord)) :
  ~ In k ks -> JsMap.get k (delete_keys ks m) = JsMap.get k m.
Proof.
  revert m. induction ks as [|k0 ks IH]; intros m Hnin; simpl; [done|].
  rewrite IH by (intros ?; apply Hnin; by right).
  apply JsMapFacts.get_delete_ne. intros ->. apply Hnin. by left.
Qed.

Lemma kill_selected_spec cfg select entries w :
  kill_selected cfg select entries w =
    (set_registry (delete_keys (selected select entries) (activeProcesses w))
       (add_effects
          (map (fun k => kill_effect cfg (running w) (pid_value k))
               (selected select entries)) w),
     Normal tt).
Proof.
  revert w. induction entries as [|[k r] entries IH]; intros w.
  - unfold kill_selected, selected. simpl. unfold ret. f_equal.
    apply world_eq; simpl; auto using app_nil_r.
  - unfold kill_selected, selected in *. simpl.
    unfold bind at 1. destruct (select r) eqn:Hsel; simpl.
    + unfold bind at 1. rewrite killProcess_spec.
      unfold registry_delete at 1. rewrite IH. f_equal.
      apply world_eq; simpl; auto.
      by rewrite <- app_assoc.
    + unfold ret at 1. apply IH.
Qed.

Lemma for_of_ext {A} (xs : list A) (f g : A -> M unit) :
  (forall x w, f x w = g x w) -> forall w, for_of xs f w = for_of xs g w.
Proof.
  intros Hfg. induction xs as [|x xs IH]; intros w; simpl; [done|].
  unfold bind. rewrite Hfg. destruct (g x w) as [w' [[]|e]]; [apply IH|done].
Qed.

Lemma stop_branch_spec cfg w :
  stop_branch cfg w =
    (set_registry []
       (add_effects
          (map (fun k => kill_effect cfg (running w) (pid_value k))
               (JsMap.keys (activeProcesses w))) w),
     Normal tt).
Proof.
  unfold stop_branch.
  change (for_of (activeProcesses w) _ w)
    with (kill_selected cfg (fun _ => true) (activeProcesses w) w).
  rewrite kill_selected_spec.
  assert (Hsel : selected (fun _ => true) (activeProcesses w)
                 = JsMap.keys (activeProcesses w)).
  { unfold selected. f_equal. induction (activeProcesses w) as [|e l IH];
      simpl; [done|]. by rewrite IH. }
  rewrite Hsel. rewrite delete_keys_all by auto. reflexivity.
Qed.

Lemma on_ws_close_spec cfg sock w :
  let owned := selected (fun r => bool_decide (ws r = sock)) (activeProcesses w) in
  on_ws_close cfg sock w =
    (set_registry (delete_keys owned (activeProcesses w))
       (add_effects
          (map (fun k => kill_effect cfg (running w) (pid_value k)) owned) w),
     Normal tt).
Proof.
  intros owned. unfold on_ws_close.
  rewrite (for_of_ext _ _
            (fun '(pid, process) =>
               if (fun r => bool_decide (ws r = sock)) process
               then (run killProcess cfg (pid_value pid) ; registry_delete pid)
               else ret tt)).
  - apply (kill_selected_spec cfg (fun r => bool_decide (ws r = sock))).
  - intros [k r] w'. cbn beta iota.
    destruct (decide (ws r = sock)) as [H|H];
      [rewrite (bool_decide_eq_true_2 _ H)|rewrite (bool_decide_eq_false_2 _ H)];
      reflexivity.
Qed.

Lemma command_branch_result cfg sock fields o w :
  let r := try_catch (command_branch cfg sock (JObject fields) o)
             (fun error =>
                run console_error "Error handling message:" error ;
                ws_send sock (MsgError error None)) w in
  snd r = Normal tt /\ message_result cfg sock o w (fst r).
Proof.
  cbv beta iota zeta delta [command_branch try_catch bind json_prop ret spawn_shell].
  destruct (fields_get "command" fields) as [[| | |c| |]|];
    try (split; [reflexivity|exact (result_error cfg sock o w _)]).
  destruct (String.eqb c EmptyString);
    [split; [reflexivity|exact (result_error cfg sock o w _)]|].
  destruct o as [p|err|err].
  - split; [reflexivity|]. exact (result_spawned cfg sock _ w c p eq_refl).
  - split; [reflexivity|]. exact (result_spawn_failed cfg sock _ w c err eq_refl).
  - split; [reflexivity|exact (result_error cfg sock _ w _)].
Qed.

Lemma on_message_object cfg sock fields o w :
  on_message cfg sock (Parsed (JObject fields)) o w =
    try_catch
      (if json_is_string (fields_get "type" fields) "command"
       then command_branch cfg sock (JObject fields) o
       else if json_is_string (fields_get "type" fields) "stop"
            then stop_branch cfg
            else ret tt)
      (fun error =>
         run console_error "Error handling message:" error ;
         ws_send sock (MsgError error None)) w.
Proof. reflexivity. Qed.

Lemma on_message_result cfg sock message o w :
  snd (on_message cfg sock message o w) = Normal tt /\
  message_result cfg sock o w (fst (on_message cfg sock message o w)).
Proof.
  destruct message as [text|data].
  { split; [reflexivity|exact (result_error cfg sock o w _)]. }
  destruct data as [| | | | |fields];
    try (split; [reflexivity
                |first [exact (result_error cfg sock o w _)
                       |exact (result_ignored cfg sock o w)]]).
  rewrite on_message_object.
  destruct (json_is_string (fields_get "type" fields) "command") eqn:Hc.
  { apply (command_branch_result cfg sock fields o w). }
  destruct (json_is_string (fields_get "type" fields) "stop") eqn:Hs.
  - unfold try_catch. pose proof (result_stopped cfg sock o w) as H.
    rewrite stop_branch_spec in *. by split.
  - split; [reflexivity|exact (result_ignored cfg sock o w)].
Qed.

Lemma command_message_spawned cfg sock fields c p w :
  fields_get "type" fields = Some (JString "command") ->
  fields_get "command" fields = Some (JString c) ->
  c <> EmptyString ->
  on_message cfg sock (Parsed (JObject fields)) (Spawned p) w =
    (register_child cfg sock c {| pid := Some p |} (os_spawn cfg c p w),
     Normal tt).
Proof.
  intros Ht Hc Hne.
  unfold on_message, try_catch, bind, JSON_parse, json_prop, ret.
  rewrite Ht. simpl.
  unfold command_branch, bind, json_prop, ret, spawn_shell. rewrite Hc.
  apply String.eqb_neq in Hne. rewrite Hne. reflexivity.
Qed.

Module ScenarioFacts.
Import Scenario.

Example workspace_dir : WORKSPACE_DIR cfg = "/srv/app/workspace".
Proof. reflexivity. Qed.

Example two_clients_reachable : reachable cfg two_clients.
Proof.
  unfold two_clients.
  eapply reachable_step; [|apply step_message; [simpl; by left|done]].
  eapply reachable_step; [|apply step_message; [simpl; tauto|done]].
  eapply reachable_step; [|apply step_connect; simpl; intros [?|[]]; done].
  eapply reachable_step; [|apply step_connect; simpl; tauto].
  apply reachable_init.
Qed.

Example failed_spawn_reachable : reachable cfg failed_spawn.
Proof.
  unfold failed_spawn.
  eapply reachable_step; [|apply step_message; [simpl; by left|done]].
  eapply reachable_step; [|apply step_connect; simpl; tauto].
  apply reachable_init.
Qed.

Example two_clients_wf : JsMap.wf (activeProcesses two_clients).
Proof.
  apply NoDup_cons. split; [|apply NoDup_singleton].
  apply not_elem_of_cons. split; [discriminate|apply not_elem_of_nil].
Defined.

End ScenarioFacts.

(* ================================================================== *)
(** ** Properties *)
(* ================================================================== *)



(** C9. A [command] message with a non-empty command string, for which
    the operating system starts a child with pid [p]: the child runs the
    command in the workspace directory with the server's environment
    plus [FORCE_COLOR=1] and [npm_config_audit=false], and the registry
    maps [p] to the child, the workspace directory and the receiving
    socket. *)
Theorem command_spawns_and_registers
    (cfg : Config) (sock : Conn) (fields : list (string * Json))
    (c : string) (p : N) (w : World) :
  fields_get "type" fields = Some (JString "command") ->
  fields_get "command" fields = Some (JString c) ->
  c <> EmptyString ->
  let r := on_message cfg sock (Parsed (JObject fields)) (Spawned p) w in
  snd r = Normal tt /\
  running (fst r) !! p =
    Some {| os_command := c; os_cwd := WORKSPACE_DIR cfg;
            os_env := child_env cfg; os_signalable := true |} /\
  child_env cfg !! "FORCE_COLOR" = Some "1" /\
  child_env cfg !! "npm_config_audit" = Some "false" /\
  (forall k, k <> "FORCE_COLOR" -> k <> "npm_config_audit" ->
             child_env cfg !! k = process_env cfg !! k) /\
  JsMap.get (Some p) (activeProcesses (fst r)) =
    Some {| process := {| pid := Some p |};
            cwd := WORKSPACE_DIR cfg; ws := sock |} /\
  trace (fst r) = trace w.
Proof.
  intros Ht Hc Hne r. subst r.
  rewrite (command_message_spawned cfg sock fields c p w Ht Hc Hne). simpl.
  split; [reflexivity|]. split; [apply lookup_insert_eq|].
  unfold child_env.
  split; [by rewrite lookup_insert_ne, lookup_insert_eq|].
  split; [apply lookup_insert_eq|].
  split; [intros k H1 H2; by rewrite !lookup_insert_ne|].
  split; [apply JsMapFacts.get_set_eq|reflexivity].
Qed.

(** C9 at work: client 1 sends [npm test] and the child gets pid 4242. *)
Lemma command_spawns_and_registers_witness :
  let r := on_message Scenario.cfg 1 (Scenario.command_frame "npm test")
             (Spawned 4242) Scenario.quiet in
  snd r = Normal tt /\
  running (fst r) !! 4242%N =
    Some {| os_command := "npm test";
            os_cwd := WORKSPACE_DIR Scenario.cfg;
            os_env := child_env Scenario.cfg; os_signalable := true |} /\
  child_env Scenario.cfg !! "FORCE_COLOR" = Some "1" /\
  child_env Scenario.cfg !! "npm_config_audit" = Some "false" /\
  (forall k, k <> "FORCE_COLOR" -> k <> "npm_config_audit" ->
             child_env Scenario.cfg !! k = process_env Scenario.cfg !! k) /\
  JsMap.get (Some 4242%N) (activeProcesses (fst r)) =
    Some {| process := {| pid := Some 4242%N |};
            cwd := WORKSPACE_DIR Scenario.cfg; ws := 1 |} /\
  trace (fst r) = trace Scenario.quiet.
Proof.
  apply (command_spawns_and_registers Scenario.cfg 1
           [("type", JString "command"); ("command", JString "npm test")]
           "npm test" 4242 Scenario.quiet);
    [reflexivity | reflexivity | discriminate].
Defined.

(* ------------------------------------------------------------------ *)
(** *** Termination requests *)

Lemma kill_effect_terminates cfg w p :
  signalable cfg w p ->
  terminated_by cfg p [kill_effect cfg (running w) (VNumber p)].
Proof.
  unfold signalable, terminated_by, kill_effect.
  destruct (platform cfg); [intros ->; by left|].
  destruct (running w !! p) as [pr|]; [|done].
  intros ->. by left.
Qed.

Lemma terminated_by_incl cfg p es es' :
  incl es es' -> terminated_by cfg p es -> terminated_by cfg p es'.
Proof. unfold terminated_by. destruct (platform cfg); auto. Qed.

Lemma kill_effect_sigterm cfg os k n :
  kill_effect cfg os (pid_value k) = Sigterm n -> k = Some n.
Proof.
  unfold kill_effect.
  destruct (platform cfg); [by destruct (taskkill_error cfg)|].
  destruct k as [p|]; simpl; [|discriminate].
  destruct (os !! p) as [pr|]; [|discriminate].
  destruct (os_signalable pr); [|discriminate]. by intros [= ->].
Qed.

Lemma kill_effect_taskkill cfg os k n :
  kill_effect cfg os (pid_value k) = Taskkill (VNumber n) -> k = Some n.
Proof.
  unfold kill_effect. destruct (platform cfg).
  - destruct (taskkill_error cfg); [discriminate|].
    destruct k as [p|]; simpl; [by intros [= ->]|discriminate].
  - destruct k as [p|]; simpl; [|discriminate].
    destruct (os !! p) as [pr|]; [|discriminate].
    destruct (os_signalable pr); discriminate.
Qed.

Lemma selected_In select entries k :
  In k (selected select entries) <->
  exists r, In (k, r) entries /\ select r = true.
Proof.
  unfold selected, JsMap.keys. rewrite in_map_iff. split.
  - intros ([k' r] & <- & Hin). apply List.filter_In in Hin as [Hin Hsel].
    by exists r.
  - intros (r & Hin & Hsel). exists (k, r). split; [done|].
    apply List.filter_In. by split.
Qed.

Lemma kill_effects_no_send cfg os ks :
  Forall (fun e => is_send e = false)
    (map (fun k => kill_effect cfg os (pid_value k)) ks).
Proof.
  apply Forall_forall. intros e He. apply list_elem_of_In in He.
  apply in_map_iff in He as (k & <- & _). apply kill_effect_not_send.
Qed.

Lemma stop_message_spec cfg sock fields o w :
  fields_get "type" fields = Some (JString "stop") ->
  on_message cfg sock (Parsed (JObject fields)) o w = stop_branch cfg w.
Proof.
  intros Ht. rewrite on_message_object, Ht. simpl.
  unfold try_catch. by rewrite stop_branch_spec.
Qed.

(** C2, as the code has it. A [stop] message terminates and unregisters
    every registered process, whichever connection owns it: the handler
    completes normally, the registry is empty afterwards, nothing is
    sent on any socket, every registered process the server can signal
    gets the platform's termination request, and with an empty registry
    the message changes nothing. *)
Theorem stop_terminates_every_registered_process
    (cfg : Config) (sock : Conn) (fields : list (string * Json))
    (o : SpawnOutcome) (w : World) :
  fields_get "type" fields = Some (JString "stop") ->
  let r := on_message cfg sock (Parsed (JObject fields)) o w in
  snd r = Normal tt /\
  activeProcesses (fst r) = [] /\
  running (fst r) = running w /\
  (exists added,
      trace (fst r) = trace w ++ added /\
      Forall (fun e => is_send e = false) added /\
      forall p rec,
        JsMap.get (Some p) (activeProcesses w) = Some rec ->
        signalable cfg w p -> terminated_by cfg p added) /\
  (activeProcesses w = [] -> fst r = w).
Proof.
  intros Ht r. subst r. rewrite (stop_message_spec _ _ _ _ _ Ht).
  rewrite stop_branch_spec. simpl.
  split; [reflexivity|]. split; [reflexivity|]. split; [reflexivity|].
  split.
  - eexists. split; [reflexivity|]. split; [apply kill_effects_no_send|].
    intros p rec Hget Hsig.
    apply (terminated_by_incl cfg p [kill_effect cfg (running w) (VNumber p)]);
      [|by apply kill_effect_terminates].
    intros e [<-|[]]. apply in_map_iff. exists (Some p). split; [done|].
    apply JsMapFacts.get_Some_In in Hget. apply in_map_iff. by exists (Some p, rec).
  - intros Hempty. apply world_eq; simpl; auto.
    rewrite Hempty. simpl. apply app_nil_r.
Qed.

(** C2 at work: client 1 sends [stop] while two clients have a process
    each. *)
Lemma stop_terminates_every_registered_process_witness :
  let r := on_message Scenario.cfg 1 Scenario.stop_frame (Spawned 0)
             Scenario.two_clients in
  snd r = Normal tt /\
  activeProcesses (fst r) = [] /\
  running (fst r) = running Scenario.two_clients /\
  (exists added,
      trace (fst r) = trace Scenario.two_clients ++ added /\
      Forall (fun e => is_send e = false) added /\
      forall p rec,
        JsMap.get (Some p) (activeProcesses Scenario.two_clients) = Some rec ->
        signalable Scenario.cfg Scenario.two_clients p ->
        terminated_by Scenario.cfg p added) /\
  (activeProcesses Scenario.two_clients = [] -> fst r = Scenario.two_clients).
Proof.
  apply (stop_terminates_every_registered_process Scenario.cfg 1
           [("type", JString "stop")] (Spawned 0) Scenario.two_clients).
  reflexivity.
Defined.

(** C2 fails as stated: client 1 sends [stop] while pid 7 is
    registered for client 2; that process is signalled too and its
    entry is removed. *)
Lemma stop_reaches_other_connections :
  let w := Scenario.two_clients in
  let w' := fst (on_message Scenario.cfg 1 Scenario.stop_frame (Spawned 0) w) in
  JsMap.get (Some 7%N) (activeProcesses w) =
    Some {| process := {| pid := Some 7%N |};
            cwd := "/srv/app/workspace"; ws := 2 |} /\
  JsMap.get (Some 7%N) (activeProcesses w') = None /\
  trace w' = [Sigterm 5; Sigterm 7].
Proof. vm_compute. repeat split. Qed.

(** C3. When the connection [sock] closes, a live process [p] that is
    registered with owner [sock] gets the platform's termination
    request and its entry is removed; every entry owned by another
    connection stays in the registry and no termination request is
    issued for it. *)
Theorem socket_close_tears_down_own_processes
    (cfg : Config) (sock : Conn) (w : World) (p : N) (rec : ProcessRecord) :
  JsMap.wf (activeProcesses w) ->
  JsMap.get (Some p) (activeProcesses w) = Some rec ->
  ws rec = sock ->
  signalable cfg w p ->
  let r := on_ws_close cfg sock w in
  snd r = Normal tt /\
  JsMap.get (Some p) (activeProcesses (fst r)) = None /\
  running (fst r) = running w /\
  exists added,
    trace (fst r) = trace w ++ added /\
    terminated_by cfg p added /\
    forall q rec',
      JsMap.get q (activeProcesses w) = Some rec' ->
      ws rec' <> sock ->
      JsMap.get q (activeProcesses (fst r)) = Some rec' /\
      forall n, q = Some n ->
                ~ In (Sigterm n) added /\ ~ In (Taskkill (VNumber n)) added.
Proof.
  intros Hwf Hget Hown Hsig r. subst r.
  pose proof (on_ws_close_spec cfg sock w) as Hspec. simpl in Hspec.
  rewrite Hspec. clear Hspec. simpl.
  set (owned := selected (fun r => bool_decide (ws r = sock)) (activeProcesses w)).
  assert (Hp : In (Some p) owned).
  { apply selected_In. exists rec. split; [by apply JsMapFacts.get_Some_In|].
    by apply bool_decide_eq_true_2. }
  assert (Hother : forall q rec', JsMap.get q (activeProcesses w) = Some rec' ->
                                  ws rec' <> sock -> ~ In q owned).
  { intros q rec' Hq Hne Hin. apply selected_In in Hin as (r'' & Hin & Hsel).
    apply bool_decide_eq_true_1 in Hsel.
    apply (JsMapFacts.In_get _ _ _ Hwf) in Hin. congruence. }
  split; [reflexivity|]. split; [by apply get_delete_keys_in|].
  split; [reflexivity|].
  eexists. split; [reflexivity|]. split.
  - apply (terminated_by_incl cfg p [kill_effect cfg (running w) (VNumber p)]);
      [|by apply kill_effect_terminates].
    intros e [<-|[]]. apply in_map_iff. by exists (Some p).
  - intros q rec' Hq Hne. split.
    + rewrite get_delete_keys_notin; [done|by eapply Hother].
    + intros n ->. split; intros Hin;
        apply in_map_iff in Hin as (k & Hk & Hin);
        [apply kill_effect_sigterm in Hk|apply kill_effect_taskkill in Hk];
        subst k; by eapply Hother.
Qed.

(** C3 at work: client 2 disconnects; its process 7 goes, process 5 of
    client 1 stays. *)
Lemma socket_close_tears_down_own_processes_witness :
  let r := on_ws_close Scenario.cfg 2 Scenario.two_clients in
  snd r = Normal tt /\
  JsMap.get (Some 7%N) (activeProcesses (fst r)) = None /\
  running (fst r) = running Scenario.two_clients /\
  exists added,
    trace (fst r) = trace Scenario.two_clients ++ added /\
    terminated_by Scenario.cfg 7 added /\
    forall q rec',
      JsMap.get q (activeProcesses Scenario.two_clients) = Some rec' ->
      ws rec' <> 2 ->
      JsMap.get q (activeProcesses (fst r)) = Some rec' /\
      forall n, q = Some n ->
                ~ In (Sigterm n) added /\ ~ In (Taskkill (VNumber n)) added.
Proof.
  apply (socket_close_tears_down_own_processes Scenario.cfg 2
           Scenario.two_clients 7
           {| process := {| pid := Some 7%N |};
              cwd := "/srv/app/workspace"; ws := 2 |}).
  - exact ScenarioFacts.two_clients_wf.
  - reflexivity.
  - reflexivity.
  - reflexivity.
Defined.

Example disconnect_of_client_2 :
  let w' := fst (on_ws_close Scenario.cfg 2 Scenario.two_clients) in
  activeProcesses w' =
    [(Some 5%N, {| process := {| pid := Some 5%N |};
                   cwd := "/srv/app/workspace"; ws := 1 |})] /\
  trace w' = [Sigterm 7].
Proof. split; reflexivity. Qed.

(* ------------------------------------------------------------------ *)
(** *** Malformed frames *)

(** C7, as the code has it. Handling a frame never throws and never
    closes a socket. Text that is not JSON is answered with exactly one
    [error] message on the same socket (after one log line) and changes
    nothing else; a JSON value other than [null] whose [type] is neither
    [command] nor [stop] is ignored without any message; and after a
    rejected frame a valid command on the same socket is served as
    usual. *)
Theorem frames_never_break_the_session
    (cfg : Config) (sock : Conn) (o : SpawnOutcome) (w : World) :
  (forall message,
      snd (on_message cfg sock message o w) = Normal tt /\
      open_sockets (fst (on_message cfg sock message o w)) = open_sockets w) /\
  (forall text,
      exists e,
        let w' := fst (on_message cfg sock (NotJson text) o w) in
        trace w' =
          trace w ++ [ConsoleError "Error handling message:" e;
                      Send sock (MsgError e None)] /\
        activeProcesses w' = activeProcesses w /\
        running w' = running w /\
        listeners w' = listeners w) /\
  (forall data,
      data <> JNull ->
      (forall fields, data = JObject fields ->
         json_is_string (fields_get "type" fields) "command" = false /\
         json_is_string (fields_get "type" fields) "stop" = false) ->
      on_message cfg sock (Parsed data) o w = (w, Normal tt)) /\
  (forall text fields c p,
      fields_get "type" fields = Some (JString "command") ->
      fields_get "command" fields = Some (JString c) ->
      c <> EmptyString ->
      let w1 := fst (on_message cfg sock (NotJson text) o w) in
      let r := on_message cfg sock (Parsed (JObject fields)) (Spawned p) w1 in
      snd r = Normal tt /\
      running (fst r) !! p =
        Some {| os_command := c; os_cwd := WORKSPACE_DIR cfg;
                os_env := child_env cfg; os_signalable := true |} /\
      JsMap.get (Some p) (activeProcesses (fst r)) =
        Some {| process := {| pid := Some p |};
                cwd := WORKSPACE_DIR cfg; ws := sock |}).
Proof.
  split; [|split; [|split]].
  - intros message.
    destruct (on_message_result cfg sock message o w) as [Hn Hr].
    split; [exact Hn|].
    destruct Hr as [|e| |c p _|c err _]; try reflexivity.
    by rewrite stop_branch_spec.
  - intros text. eexists. simpl.
    split; [by rewrite <- app_assoc|]. by repeat split.
  - intros data Hnull Hobj.
    destruct data as [| | | | |fields]; try reflexivity; [done|].
    destruct (Hobj fields eq_refl) as [Hc Hs].
    rewrite on_message_object, Hc, Hs. reflexivity.
  - intros text fields c p Ht Hc Hne w1 r. subst r.
    rewrite (command_message_spawned cfg sock fields c p w1 Ht Hc Hne). simpl.
    split; [reflexivity|].
    split; [apply lookup_insert_eq|apply JsMapFacts.get_set_eq].
Qed.

(** C7 fails as stated: a well-formed JSON frame of the wrong shape (an
    unknown [type]) is dropped silently, no [error] message is sent. *)
Lemma unknown_type_gets_no_error :
  on_message Scenario.cfg 1
    (Parsed (JObject [("type", JString "restart")])) (Spawned 0)
    (accept 1 Scenario.quiet)
  = (accept 1 Scenario.quiet, Normal tt) /\
  trace (accept 1 Scenario.quiet) = [].
Proof. split; reflexivity. Qed.

(* ------------------------------------------------------------------ *)
(** *** The registry along the event loop *)

Lemma registry_sound_core w w' :
  activeProcesses w' = activeProcesses w ->
  running w' = running w ->
  listeners w' = listeners w ->
  registry_sound w -> registry_sound w'.
Proof.
  unfold registry_sound. intros -> -> -> H. exact H.
Qed.

Lemma In_remove_first l l' ls :
  In l' ls -> l' <> l -> In l' (remove_first l ls).
Proof.
  induction ls as [|x ls IH]; simpl; [done|].
  intros [->|Hin] Hne.
  - destruct (decide (l' = l)); [done|]. by left.
  - destruct (decide (x = l)); [done|]. right. by apply IH.
Qed.

Lemma get_delete_Some {V} k k' (m : list (Pid * V)) v :
  JsMap.get k' (JsMap.delete k m) = Some v ->
  k' <> k /\ JsMap.get k' m = Some v.
Proof.
  intros H. destruct (decide (k = k')) as [->|Hne].
  - by rewrite JsMapFacts.get_delete_eq in H.
  - rewrite JsMapFacts.get_delete_ne in H by done. split; congruence.
Qed.

Lemma get_delete_keys_Some ks k (m : list (Pid * ProcessRecord)) r :
  JsMap.get k (delete_keys ks m) = Some r ->
  ~ In k ks /\ JsMap.get k m = Some r.
Proof.
  revert m. induction ks as [|k0 ks IH]; intros m H; simpl in *; [tauto|].
  apply IH in H as [Hnin H]. apply get_delete_Some in H as [Hne H].
  split; [|done]. intros [->|?]; done.
Qed.

Lemma wf_delete_keys ks (m : list (Pid * ProcessRecord)) :
  JsMap.wf m -> JsMap.wf (delete_keys ks m).
Proof.
  revert m. induction ks as [|k ks IH]; intros m H; simpl; [done|].
  by apply IH, JsMapFacts.wf_delete.
Qed.

Lemma message_keeps_registry_sound cfg sock o w w' :
  pid_is_free o w ->
  message_result cfg sock o w w' ->
  registry_sound w /\ JsMap.wf (activeProcesses w) ->
  registry_sound w' /\ JsMap.wf (activeProcesses w').
Proof.
  intros Hfree Hres [Hs Hwf]. destruct Hres as [|e| |c p _|c err _].
  - done.
  - split; [|exact Hwf]. by apply (registry_sound_core w).
  - rewrite stop_branch_spec. simpl. split; [|constructor].
    intros k r. simpl. discriminate.
  - split; [|by apply JsMapFacts.wf_set].
    intros k r. simpl. intros Hget.
    destruct (decide (Some p = k)) as [<-|Hne].
    + split; [|rewrite lookup_insert_eq; by eexists].
      eexists. split; [apply in_or_app; right; by left|done].
    + rewrite JsMapFacts.get_set_ne in Hget by done.
      destruct (Hs k r Hget) as [(l & Hl & Hp) Hlive]. split.
      * exists l. split; [|done]. apply in_or_app. by left.
      * destruct k as [q|]; [|done].
        rewrite lookup_insert_ne by congruence. exact Hlive.
  - split; [|by apply JsMapFacts.wf_set].
    intros k r. simpl. intros Hget.
    destruct k as [q|].
    + rewrite JsMapFacts.get_set_ne in Hget by done.
      destruct (Hs _ _ Hget) as [(l & Hl & Hp) Hlive]. split; [|done].
      exists l. split; [|done]. apply in_or_app. by left.
    + split; [|done].
      eexists. split; [apply in_or_app; right; by left|done].
Qed.

(* ------------------------------------------------------------------ *)
(** *** [deleteDirectory] *)

Lemma directory_loop_spec cfg dirPath records w :
  for_of records
    (fun process =>
       await hit <~ value_includes (record_get process "cwd") dirPath ;
       if hit then killProcess cfg (record_get process "pid") else ret tt) w
  = (add_effects
       (map (fun _ => kill_effect cfg (running w) VUndefined)
            (List.filter (fun r => JsString.includes (cwd r) dirPath) records)) w,
     Normal tt).
Proof.
  revert w. induction records as [|r records IH]; intros w; simpl.
  - unfold ret. by rewrite add_effects_nil.
  - unfold bind at 1. unfold bind at 1. simpl. unfold ret at 1.
    destruct (JsString.includes (cwd r) dirPath); simpl.
    + change (record_get r "pid") with VUndefined.
      rewrite killProcess_spec, IH. f_equal.
      apply world_eq; simpl; auto. by rewrite <- app_assoc.
    + unfold ret at 1. apply IH.
Qed.

Lemma deleteDirectory_spec cfg dirPath rm_outcome w :
  deleteDirectory cfg dirPath rm_outcome w =
    (add_effects
       (map (fun _ => kill_effect cfg (running w) VUndefined)
            (directory_users dirPath w)
        ++ [Sleep 1000; FsRm dirPath] ++ rm_log rm_outcome) w,
     match rm_outcome with
     | None => Normal tt
     | Some e => Thrown e
     end).
Proof.
  unfold deleteDirectory, try_catch. unfold bind at 1.
  rewrite directory_loop_spec. fold (directory_users dirPath w).
  destruct rm_outcome as [e|];
    unfold fs_rm, console_error, bind, emit, throw, ret; simpl;
    f_equal; apply world_eq; simpl; auto;
    by rewrite <- !app_assoc.
Qed.

Lemma delete_route_adds_effects cfg path rm_outcome w :
  exists es, fst (delete_route cfg path rm_outcome w) = add_effects es w.
Proof.
  unfold delete_route, respond_catch. unfold bind at 1.
  destruct path as [[| | |p| |]|]; simpl; try by eexists.
  destruct (JsString.startsWith _ _); simpl.
  - unfold bind. rewrite deleteDirectory_spec.
    destruct rm_outcome; simpl; eexists; try reflexivity.
    apply world_eq; simpl; try reflexivity. by rewrite <- app_assoc.
  - exists []. by rewrite add_effects_nil.
Qed.

Lemma storage_delete_route_adds_effects cfg path outcome w :
  exists es, fst (storage_delete_route cfg path outcome w) = add_effects es w.
Proof.
  unfold storage_delete_route, respond_catch, deleteFile, bind.
  destruct (isProduction cfg), outcome; simpl; eexists; try reflexivity;
    apply world_eq; simpl; try reflexivity; by rewrite <- app_assoc.
Qed.

Lemma step_keeps_registry_sound cfg w w' :
  step cfg w w' ->
  registry_sound w /\ JsMap.wf (activeProcesses w) ->
  registry_sound w' /\ JsMap.wf (activeProcesses w').
Proof.
  intros Hstep [Hs Hwf]. destruct Hstep as
    [sock w _|sock message o w _ Hfree|l data w _|l data w _
    |l err w Hl|l code w Hl|sock w _|path rm w|path outcome w
    |p pr w Hfree|p w Hforeign].
  - split; [by apply (registry_sound_core w)|done].
  - apply (message_keeps_registry_sound cfg sock o w); [done| |done].
    apply on_message_result.
  - split; [by apply (registry_sound_core w)|done].
  - split; [by apply (registry_sound_core w)|done].
  - split; [|by apply JsMapFacts.wf_delete].
    intros k r. simpl. intros Hget.
    apply get_delete_Some in Hget as [Hne Hget]. exact (Hs _ _ Hget).
  - assert (Hw : fst (on_child_close l code (reap l w)) =
                 add_effects
                   [Send (l_ws l)
                      (if JsString.includes (l_command l) "create-react-app"
                       then MsgCommandComplete (l_command l) code CREATED_MESSAGE
                       else MsgClose code (l_command l))]
                   (set_registry
                      (JsMap.delete (pid (l_child l)) (activeProcesses w))
                      (reap l w))).
    { unfold on_child_close, bind, registry_delete, ws_send.
      by destruct (JsString.includes (l_command l) "create-react-app"). }
    rewrite Hw. clear Hw. simpl. split; [|by apply JsMapFacts.wf_delete].
    intros k r. simpl. intros Hget.
    apply get_delete_Some in Hget as [Hne Hget].
    destruct (Hs _ _ Hget) as [(l' & Hl' & Hp') Hlive]. split.
    + exists l'. split; [|done].
      apply In_remove_first; [done|]. intros ->. congruence.
    + destruct k as [q|]; [|done].
      destruct (pid (l_child l)) as [p|]; [|exact Hlive].
      rewrite lookup_delete_ne by congruence. exact Hlive.
  - pose proof (on_ws_close_spec cfg sock (hang_up sock w)) as Hspec.
    simpl in Hspec. rewrite Hspec. clear Hspec. simpl.
    split; [|by apply wf_delete_keys].
    intros k r. simpl. intros Hget.
    apply get_delete_keys_Some in Hget as [_ Hget]. exact (Hs _ _ Hget).
  - destruct (delete_route_adds_effects cfg path rm w) as [es ->].
    split; [by apply (registry_sound_core w)|done].
  - destruct (storage_delete_route_adds_effects cfg path outcome w) as [es ->].
    split; [by apply (registry_sound_core w)|done].
  - split; [|done]. intros k r. simpl. intros Hget.
    destruct (Hs _ _ Hget) as [Hl Hlive]. split; [done|].
    destruct k as [q|]; [|done].
    destruct (decide (p = q)) as [->|Hne];
      [rewrite lookup_insert_eq; by eexists|by rewrite lookup_insert_ne].
  - split; [|done]. intros k r. simpl. intros Hget.
    destruct (Hs _ _ Hget) as [(l & Hl & Hp) Hlive]. split; [by exists l|].
    destruct k as [q|]; [|done].
    rewrite lookup_delete_ne; [done|]. intros ->. by apply (Hforeign l).
Qed.

Lemma reachable_registry_sound cfg w :
  reachable cfg w -> registry_sound w /\ JsMap.wf (activeProcesses w).
Proof.
  induction 1 as [os|w w' _ IH Hstep].
  - split; [intros k r; discriminate|constructor].
  - by apply (step_keeps_registry_sound cfg w).
Qed.




(* ------------------------------------------------------------------ *)
(** *** Deleting the directory a process runs in *)

(** [deleteDirectory] reads [process.pid] on the stored record, which
    has no such property: whatever the registry holds, no termination
    request reaches a registered pid, and the registry is unchanged.
    What it does, in order: one failed kill per matching record, the
    wait of one second, the recursive removal. *)
Lemma deleteDirectory_signals_nobody cfg dirPath rm_outcome w :
  exists added,
    trace (fst (deleteDirectory cfg dirPath rm_outcome w)) = trace w ++ added /\
    forall n, ~ In (Sigterm n) added /\ ~ In (Taskkill (VNumber n)) added.
Proof.
  rewrite deleteDirectory_spec. simpl. eexists. split; [reflexivity|].
  assert (Hk : forall n e,
             e = kill_effect cfg (running w) VUndefined ->
             e <> Sigterm n /\ e <> Taskkill (VNumber n)).
  { intros n e ->. unfold kill_effect.
    by destruct (platform cfg), (taskkill_error cfg). }
  intros n. split; intros Hin; apply in_app_or in Hin as [Hin|Hin].
  - apply in_map_iff in Hin as (r & He & _). symmetry in He.
    by apply (Hk n) in He as [? _].
  - destruct rm_outcome; simpl in Hin; intuition discriminate.
  - apply in_map_iff in Hin as (r & He & _). symmetry in He.
    by apply (Hk n) in He as [_ ?].
  - destruct rm_outcome; simpl in Hin; intuition discriminate.
Qed.

(** C5 on the code. With [sleep 100] registered in the workspace
    directory, a delete request for that directory matches the record,
    but the kill is attempted on [undefined] and only logged; after the
    wait the directory is removed and the request succeeds, while the
    process was never signalled, is still running and is still
    registered. *)
Lemma delete_leaves_process_running :
  let r := delete_route Scenario.cfg (Some (JString "/")) None sleeping in
  directory_users "/srv/app/workspace" sleeping =
    [{| process := {| pid := Some 4242%N |};
        cwd := "/srv/app/workspace"; ws := 1 |}] /\
  snd r = {| status := 200; body := BodySuccess |} /\
  trace (fst r) =
    [ConsoleError "Error killing process"
       "The pid argument must be of type number";
     Sleep 1000;
     FsRm "/srv/app/workspace"] /\
  JsMap.get (Some 4242%N) (activeProcesses (fst r)) =
    Some {| process := {| pid := Some 4242%N |};
            cwd := "/srv/app/workspace"; ws := 1 |} /\
  signalable Scenario.cfg (fst r) 4242.
Proof. vm_compute. repeat split. Qed.

(** On Windows the same request launches [taskkill] with [undefined]
    in place of the pid. *)
Example delete_on_windows :
  let cfg :=
    {| platform := Win32; process_env := ∅;
       module_dirname := "/srv/app/src";
       storage_dirname := "/srv/app/src/utils";
       taskkill_error := None |} in
  trace (fst (deleteDirectory cfg "/srv/app/workspace" None sleeping)) =
    [Taskkill VUndefined; Sleep 1000; FsRm "/srv/app/workspace"].
Proof. reflexivity. Qed.

(* ------------------------------------------------------------------ *)
(** *** Paths that leave the workspace *)

(** A target the guard rejects does lie outside the workspace. *)
Lemma guard_rejects_only_outsiders root target :
  JsString.startsWith target root = false -> inside_root root target = false.
Proof.
  intros Hguard. unfold inside_root. apply orb_false_intro.
  - destruct (String.eqb_spec target root) as [->|]; [|done].
    by rewrite JsStringFacts.startsWith_refl in Hguard.
  - destruct (JsString.startsWith target (root +:+ "/")) eqn:H; [|done].
    apply JsStringFacts.startsWith_app in H. congruence.
Qed.




(** The guard of the other route compares strings, not path segments: a
    sibling directory whose name extends the workspace's passes it. *)
Example sibling_directory_passes_the_guard :
  let r := delete_route Scenario.cfg (Some (JString "../workspace-old/x"))
             None Scenario.quiet in
  inside_root (WORKSPACE_DIR Scenario.cfg) "/srv/app/workspace-old/x" = false /\
  snd r = {| status := 200; body := BodySuccess |} /\
  trace (fst r) = [Sleep 1000; FsRm "/srv/app/workspace-old/x"].
Proof. vm_compute. repeat split. Qed.

(* ================================================================== *)
(** ** The order of a directory listing *)
(* ================================================================== *)

Module FilesFacts.
Import Files.

Section SortFacts.
Context {A : Type} (compare : A -> A -> Z).

Local Abbreviation le := (not_after compare).

Hypothesis le_total : forall a b, le a b \/ le b a.
Hypothesis le_trans : forall a b c, le a b -> le b c -> le a c.

Lemma sort_insert_perm x l : Permutation (x :: l) (sort_insert compare x l).
Proof.
  induction l as [|y l IH]; simpl; [done|].
  destruct (compare x y <=? 0)%Z; [done|].
  rewrite <- IH. apply perm_swap.
Qed.

Lemma array_sort_perm l : Permutation l (array_sort compare l).
Proof.
  induction l as [|x l IH]; simpl; [done|].
  rewrite <- sort_insert_perm. by apply perm_skip.
Qed.

Lemma sort_insert_sorted x l :
  StronglySorted le l -> StronglySorted le (sort_insert compare x l).
Proof.
  induction 1 as [|y l Hsorted IH Hall]; simpl.
  - repeat constructor.
  - destruct (Z.leb_spec (compare x y) 0) as [Hle|Hgt].
    + constructor; [by constructor|].
      constructor; [exact Hle|].
      eapply Forall_impl; [exact Hall|]. intros z Hz. by eapply le_trans.
    + constructor; [exact IH|].
      eapply Permutation_Forall; [apply sort_insert_perm|].
      constructor; [|exact Hall].
      destruct (le_total x y) as [H|H]; [unfold not_after in H; lia|exact H].
Qed.

Lemma array_sort_sorted l : StronglySorted le (array_sort compare l).
Proof.
  induction l as [|x l IH]; simpl; [constructor|by apply sort_insert_sorted].
Qed.
End SortFacts.

Lemma codeCompare_total a b :
  (codeCompare a b <= 0)%Z \/ (codeCompare b a <= 0)%Z.
Proof.
  revert b. induction a as [|c a IH]; intros [|d b]; simpl; try lia.
  rewrite (Nat.compare_antisym (nat_of_ascii c) (nat_of_ascii d)).
  destruct (nat_of_ascii c ?= nat_of_ascii d)%nat; simpl; try lia.
  apply IH.
Qed.

Lemma codeCompare_trans a b c :
  (codeCompare a b <= 0)%Z -> (codeCompare b c <= 0)%Z ->
  (codeCompare a c <= 0)%Z.
Proof.
  revert b c. induction a as [|x a IH]; intros [|y b] [|z c]; simpl; try lia.
  destruct (Nat.compare_spec (nat_of_ascii x) (nat_of_ascii y)) as [Hxy|Hxy|Hxy];
    destruct (Nat.compare_spec (nat_of_ascii y) (nat_of_ascii z)) as [Hyz|Hyz|Hyz];
    destruct (Nat.compare_spec (nat_of_ascii x) (nat_of_ascii z)) as [Hxz|Hxz|Hxz];
    try lia.
  apply IH.
Qed.

Section ListingFacts.
Variable config_dirname : string.
Variable wd : string.
Variable fs : FileSystem.
Variable localeCompare : string -> string -> Z.

Hypothesis localeCompare_total :
  forall a b, (localeCompare a b <= 0)%Z \/ (localeCompare b a <= 0)%Z.
Hypothesis localeCompare_trans :
  forall a b c, (localeCompare a b <= 0)%Z -> (localeCompare b c <= 0)%Z ->
                (localeCompare a c <= 0)%Z.

Local Abbreviation entry_le := (not_after (compare_entries localeCompare)).

Local Abbreviation names_le := (name_le localeCompare).
Local Abbreviation listed := (listed_path config_dirname wd).

Lemma entry_le_total a b : entry_le a b \/ entry_le b a.
Proof.
  unfold not_after, compare_entries.
  destruct (type a), (type b); try lia; apply localeCompare_total.
Qed.

Lemma entry_le_trans a b c : entry_le a b -> entry_le b c -> entry_le a c.
Proof.
  unfold not_after, compare_entries.
  destruct (type a), (type b), (type c); try lia; apply localeCompare_trans.
Qed.

Lemma sorted_dirs_first l :
  StronglySorted entry_le l ->
  l = List.filter is_dir l ++ List.filter (fun e => negb (is_dir e)) l.
Proof.
  induction 1 as [|x l Hsorted IH Hall]; simpl; [done|].
  destruct (is_dir x) eqn:Hx; simpl.
  - f_equal. exact IH.
  - assert (Hfiles : Forall (fun e => is_dir e = false) l).
    { eapply Forall_impl; [exact Hall|]. intros y Hy.
      unfold not_after, compare_entries in Hy. unfold is_dir in *.
      destruct (type x); [discriminate|]. destruct (type y); [lia|done]. }
    assert (Hd : List.filter is_dir l = []).
    { clear -Hfiles. induction Hfiles as [|y l Hy _ IHl]; simpl; [done|].
      by rewrite Hy. }
    assert (Hf : List.filter (fun e => negb (is_dir e)) l = l).
    { clear -Hfiles. induction Hfiles as [|y l Hy _ IHl]; simpl; [done|].
      rewrite Hy. simpl. by rewrite IHl. }
    by rewrite Hd, Hf.
Qed.

Lemma sorted_filter_names (keep : FileInfo -> bool) l :
  (forall a b, keep a = true -> keep b = true -> entry_le a b -> names_le a b) ->
  StronglySorted entry_le l ->
  StronglySorted names_le (List.filter keep l).
Proof.
  intros Hkeep. induction 1 as [|x l Hsorted IH Hall]; simpl; [constructor|].
  destruct (keep x) eqn:Hx; [|exact IH].
  constructor; [exact IH|].
  apply Forall_forall. intros y Hy. apply list_elem_of_In in Hy.
  apply List.filter_In in Hy as [Hy Hky].
  apply Hkeep; [done|done|].
  rewrite Forall_forall in Hall. apply Hall. by apply list_elem_of_In.
Qed.

Lemma entry_info_ok dirPath n :
  is_Some (stat fs (Path.join [dirPath; n])) ->
  exists e,
    entry_info config_dirname wd fs dirPath n = Normal e /\
    path e = listed dirPath n.
Proof.
  intros [st Hst]. unfold entry_info, getFileInfo. rewrite Hst. simpl.
  destruct (getFileType fs _); [|by eexists].
  destruct (readdir fs _); by eexists.
Qed.

Lemma promise_all_ok dirPath names :
  Forall (fun n => is_Some (stat fs (Path.join [dirPath; n]))) names ->
  exists contents,
    promise_all (map (entry_info config_dirname wd fs dirPath) names)
    = Normal contents /\
    map path contents = map (listed dirPath) names.
Proof.
  induction 1 as [|n names Hn _ (contents & Hall & Hpaths)]; simpl.
  - by exists [].
  - destruct (entry_info_ok dirPath n Hn) as (e & -> & Hp).
    rewrite Hall. exists (e :: contents). simpl. by rewrite Hp, Hpaths.
Qed.


(** Conversely, a listing is only returned in that situation. *)
Lemma listing_returned dirPath contents :
  getDirectoryContents config_dirname wd fs localeCompare dirPath
  = Normal contents ->
  exists names,
    readdir fs dirPath = Some names /\
    Forall (fun n => is_Some (stat fs (Path.join [dirPath; n]))) names.
Proof.
  unfold getDirectoryContents.
  destruct (readdir fs dirPath) as [names|]; [|discriminate].
  intros H. exists names. split; [done|].
  destruct (promise_all _) as [l|] eqn:Hall; [clear H|discriminate].
  revert l Hall. induction names as [|n names IH]; intros l; simpl;
    [constructor|].
  destruct (entry_info _ _ _ _ n) as [e|] eqn:He; [|discriminate].
  destruct (promise_all _) as [l'|] eqn:Hall'; [|discriminate].
  intros _. constructor; [|by eapply IH].
  unfold entry_info, getFileInfo in He.
  destruct (stat fs _); [by eexists|discriminate].
Qed.
End ListingFacts.

Example demo_listing :
  getDirectoryContents "/srv/app/src" "/srv/app" demo_fs codeCompare
    "/srv/app/workspace"
  = Normal
      [{| name := "src"; path := "src"; type := Directory;
          size := 4096; modified := 3; children := Some true |};
       {| name := "a.txt"; path := "a.txt"; type := File;
          size := 12; modified := 1; children := None |};
       {| name := "b.txt"; path := "b.txt"; type := File;
          size := 7; modified := 2; children := None |}].
Proof. reflexivity. Qed.


End FilesFacts.

(* ================================================================== *)
(** ** Further properties of the command sessions *)
(* ================================================================== *)

Lemma delete_set_fresh (k : Pid) (v : ProcessRecord) m :
  JsMap.get k m = None -> JsMap.delete k (JsMap.set k v m) = m.
Proof.
  induction m as [|[k' v'] m IH]; simpl.
  - intros _. by destruct (decide (k = k)).
  - destruct (decide (k' = k)) as [->|Hne]; [discriminate|].
    intros Hget. simpl. destruct (decide (k' = k)); [done|].
    by rewrite IH.
Qed.

Lemma remove_first_last l ls :
  ~ In l ls -> remove_first l (ls ++ [l]) = ls.
Proof.
  induction ls as [|x ls IH]; simpl; intros Hnin.
  - by destruct (decide (l = l)).
  - destruct (decide (x = l)) as [->|]; [tauto|]. rewrite IH; tauto.
Qed.

(** X1. Chunks read from a child, on its two streams in any
    interleaving, are forwarded one message per chunk and in the order
    of arrival: [output] for standard output, [error] for standard
    error, each carrying the command; nothing else changes. *)
Theorem chunks_are_forwarded_in_order (l : Listener) (chunks : list Chunk)
    (w : World) :
  for_of chunks (on_chunk l) w =
    (add_effects (map (fun c => Send (l_ws l) (chunk_message l c)) chunks) w,
     Normal tt).
Proof.
  revert w. induction chunks as [|c chunks IH]; intros w; simpl.
  - unfold ret. by rewrite add_effects_nil.
  - unfold bind. destruct c as [data|data]; simpl; rewrite IH; f_equal;
      apply world_eq; simpl; auto; by rewrite <- app_assoc.
Qed.

(** X2. A command that runs to completion leaves no trace in the
    registry or in the process table: if the pid was free, then after
    the [command] message and the child's [close] event the registry,
    the process table and the pending listeners are what they were,
    and the client received exactly one completion message. *)
Theorem command_then_close_restores_registry
    (cfg : Config) (sock : Conn) (fields : list (string * Json))
    (c : string) (p : N) (code : ExitCode) (w : World) :
  fields_get "type" fields = Some (JString "command") ->
  fields_get "command" fields = Some (JString c) ->
  c <> EmptyString ->
  JsMap.get (Some p) (activeProcesses w) = None ->
  running w !! p = None ->
  ~ In (listener_of sock c (Some p)) (listeners w) ->
  let w1 := fst (on_message cfg sock (Parsed (JObject fields)) (Spawned p) w) in
  let l := listener_of sock c (Some p) in
  let w2 := fst (on_child_close l code (reap l w1)) in
  In l (listeners w1) /\
  activeProcesses w2 = activeProcesses w /\
  running w2 = running w /\
  listeners w2 = listeners w /\
  trace w2 = trace w ++ [Send sock (completion_message c code)].
Proof.
  intros Ht Hc Hne Hfresh Hfree Hl w1 l w2. subst w1 w2 l.
  rewrite (command_message_spawned cfg sock fields c p w Ht Hc Hne). simpl.
  split; [apply in_or_app; right; by left|].
  unfold on_child_close, bind, registry_delete, ws_send, completion_message,
    listener_of.
  cbn [l_command l_ws l_child pid].
  destruct (JsString.includes c "create-react-app"); simpl;
    (split; [by apply delete_set_fresh|]);
    (split; [by rewrite delete_insert_eq, delete_id|]);
    (split; [by apply remove_first_last|reflexivity]).
Qed.

(** X2 at work: client 1 runs [npm test] as pid 4242 and it exits with
    code 0. *)
Lemma command_then_close_restores_registry_witness :
  let w := accept 1 Scenario.quiet in
  let w1 := fst (on_message Scenario.cfg 1 (Scenario.command_frame "npm test")
                   (Spawned 4242) w) in
  let l := listener_of 1 "npm test" (Some 4242%N) in
  let w2 := fst (on_child_close l (Some 0%Z) (reap l w1)) in
  In l (listeners w1) /\
  activeProcesses w2 = activeProcesses w /\
  running w2 = running w /\
  listeners w2 = listeners w /\
  trace w2 = trace w ++ [Send 1 (completion_message "npm test" (Some 0%Z))].
Proof.
  apply (command_then_close_restores_registry Scenario.cfg 1
           [("type", JString "command"); ("command", JString "npm test")]
           "npm test" 4242 (Some 0%Z) (accept 1 Scenario.quiet));
    first [reflexivity | discriminate | (intros []) ].
Defined.

Lemma command_message_spawn_failed cfg sock fields c err w :
  fields_get "type" fields = Some (JString "command") ->
  fields_get "command" fields = Some (JString c) ->
  c <> EmptyString ->
  on_message cfg sock (Parsed (JObject fields)) (SpawnFailsLater err) w =
    (register_child cfg sock c {| pid := None |} w, Normal tt).
Proof.
  intros Ht Hc Hne.
  unfold on_message, try_catch, bind, JSON_parse, json_prop, ret.
  rewrite Ht. simpl.
  unfold command_branch, bind, json_prop, ret, spawn_shell. rewrite Hc.
  apply String.eqb_neq in Hne. rewrite Hne. reflexivity.
Qed.

(** X3. A command whose shell cannot be started: no process appears,
    the child is registered under [undefined], and its [error] event
    removes that entry again and sends exactly one [error] message
    with the failure text and the command. *)
Theorem failed_spawn_is_cleaned_up_by_error
    (cfg : Config) (sock : Conn) (fields : list (string * Json))
    (c err failure : string) (w : World) :
  fields_get "type" fields = Some (JString "command") ->
  fields_get "command" fields = Some (JString c) ->
  c <> EmptyString ->
  JsMap.get None (activeProcesses w) = None ->
  let w1 := fst (on_message cfg sock (Parsed (JObject fields))
                   (SpawnFailsLater err) w) in
  let l := listener_of sock c None in
  let w2 := fst (on_child_error l failure w1) in
  running w1 = running w /\
  trace w1 = trace w /\
  JsMap.get None (activeProcesses w1) =
    Some {| process := {| pid := None |};
            cwd := WORKSPACE_DIR cfg; ws := sock |} /\
  In l (listeners w1) /\
  activeProcesses w2 = activeProcesses w /\
  trace w2 = trace w ++ [Send sock (MsgError failure (Some c))].
Proof.
  intros Ht Hc Hne Hfresh w1 l w2. subst w1 w2 l.
  rewrite (command_message_spawn_failed cfg sock fields c err w Ht Hc Hne).
  simpl. split; [reflexivity|]. split; [reflexivity|].
  split; [apply JsMapFacts.get_set_eq|].
  split; [apply in_or_app; right; by left|].
  split; [by apply delete_set_fresh|reflexivity].
Qed.

(** X3 at work, from the state of the failed spawn's request. *)
Lemma failed_spawn_is_cleaned_up_by_error_witness :
  let w := accept 1 Scenario.quiet in
  let w1 := fst (on_message Scenario.cfg 1 (Scenario.command_frame "npm test")
                   (SpawnFailsLater "spawn /bin/sh ENOENT") w) in
  let l := listener_of 1 "npm test" None in
  let w2 := fst (on_child_error l "spawn /bin/sh ENOENT" w1) in
  running w1 = running w /\
  trace w1 = trace w /\
  JsMap.get None (activeProcesses w1) =
    Some {| process := {| pid := None |};
            cwd := WORKSPACE_DIR Scenario.cfg; ws := 1 |} /\
  In l (listeners w1) /\
  activeProcesses w2 = activeProcesses w /\
  trace w2 =
    trace w ++ [Send 1 (MsgError "spawn /bin/sh ENOENT" (Some "npm test"))].
Proof.
  apply (failed_spawn_is_cleaned_up_by_error Scenario.cfg 1
           [("type", JString "command"); ("command", JString "npm test")]
           "npm test" "spawn /bin/sh ENOENT" "spawn /bin/sh ENOENT"
           (accept 1 Scenario.quiet));
    first [reflexivity | discriminate].
Defined.

(** X4. A [command] message that cannot be run (the command is
    missing, is not a string or is empty, or [spawn] throws) starts
    and registers nothing: the world is unchanged except for one log
    line and exactly one [error] message to the sender. *)
Theorem unusable_command_is_reported
    (cfg : Config) (sock : Conn) (fields : list (string * Json))
    (o : SpawnOutcome) (w : World) :
  fields_get "type" fields = Some (JString "command") ->
  (forall c, fields_get "command" fields = Some (JString c) ->
             c = EmptyString \/ exists e, o = SpawnThrows e) ->
  exists e,
    on_message cfg sock (Parsed (JObject fields)) o w =
      (report_error sock e w, Normal tt) /\
    trace (report_error sock e w) =
      trace w ++ [ConsoleError "Error handling message:" e;
                  Send sock (MsgError e None)].
Proof.
  intros Ht Hbad. rewrite on_message_object, Ht. simpl.
  assert (Htr : forall e, trace (report_error sock e w) =
            trace w ++ [ConsoleError "Error handling message:" e;
                        Send sock (MsgError e None)])
    by (intros e; simpl; by rewrite <- app_assoc).
  unfold try_catch, command_branch, bind, json_prop, ret, spawn_shell.
  destruct (fields_get "command" fields) as [[| | |c| |]|] eqn:Hc;
    try (eexists; split; [reflexivity|apply Htr]).
  destruct (Hbad c eq_refl) as [->|[e ->]].
  - eexists; split; [reflexivity|apply Htr].
  - destruct (String.eqb c EmptyString);
      (eexists; split; [reflexivity|apply Htr]).
Qed.

(** X4 at work: a [command] message without a command. *)
Lemma unusable_command_is_reported_witness :
  exists e,
    on_message Scenario.cfg 1 (Parsed (JObject [("type", JString "command")]))
      (Spawned 9) (accept 1 Scenario.quiet) =
      (report_error 1 e (accept 1 Scenario.quiet), Normal tt) /\
    trace (report_error 1 e (accept 1 Scenario.quiet)) =
      trace (accept 1 Scenario.quiet) ++
        [ConsoleError "Error handling message:" e; Send 1 (MsgError e None)].
Proof.
  apply (unusable_command_is_reported Scenario.cfg 1
           [("type", JString "command")] (Spawned 9) (accept 1 Scenario.quiet)).
  - reflexivity.
  - intros c Hc. discriminate Hc.
Defined.

(* ------------------------------------------------------------------ *)
(** *** What a closing socket leaves behind *)

Lemma delete_absent (k : Pid) (m : list (Pid * ProcessRecord)) :
  ~ In k (JsMap.keys m) -> JsMap.delete k m = m.
Proof.
  unfold JsMap.keys. induction m as [|[k' v'] m IH]; simpl; [done|].
  intros Hnin. destruct (decide (k' = k)) as [->|]; [tauto|].
  rewrite IH; tauto.
Qed.

Lemma delete_keys_cons_absent ks k r (m : list (Pid * ProcessRecord)) :
  ~ In k ks -> delete_keys ks ((k, r) :: m) = (k, r) :: delete_keys ks m.
Proof.
  revert m. induction ks as [|k0 ks IH]; intros m Hnin; simpl; [done|].
  destruct (decide (k = k0)) as [->|Hne]; [exfalso; apply Hnin; by left|].
  rewrite IH by (intros ?; apply Hnin; by right). done.
Qed.

Lemma delete_selected_is_filter (select : ProcessRecord -> bool)
    (m : list (Pid * ProcessRecord)) :
  JsMap.wf m ->
  delete_keys (selected select m) m =
    List.filter (fun e => negb (select (snd e))) m.
Proof.
  unfold JsMap.wf, JsMap.keys.
  induction m as [|[k r] m IH]; simpl; [done|].
  intros Hnd. apply NoDup_cons in Hnd as [Hnotin Hnd].
  rewrite list_elem_of_In in Hnotin.
  assert (Hsel : ~ In k (selected select m)).
  { intros Hin. apply selected_In in Hin as (r' & Hin & _).
    apply Hnotin, in_map_iff. by exists (k, r'). }
  unfold selected in *. simpl. destruct (select r); simpl.
  - destruct (decide (k = k)) as [_|]; [|done].
    rewrite delete_absent by exact Hnotin. by apply IH.
  - rewrite delete_keys_cons_absent by exact Hsel. f_equal. by apply IH.
Qed.

(** X5. When a socket closes, the registry becomes exactly the
    entries of the other owners, in their previous order, and the
    process table is untouched; in particular the close of a socket
    that owns nothing changes nothing in the registry. *)
Theorem socket_close_keeps_the_others
    (cfg : Config) (sock : Conn) (w : World) :
  JsMap.wf (activeProcesses w) ->
  let w' := fst (on_ws_close cfg sock w) in
  activeProcesses w' = others sock (activeProcesses w) /\
  running w' = running w /\
  listeners w' = listeners w /\
  (Forall (fun e => ws (snd e) <> sock) (activeProcesses w) -> w' = w).
Proof.
  intros Hwf w'. subst w'.
  pose proof (on_ws_close_spec cfg sock w) as Hspec. simpl in Hspec.
  rewrite Hspec. clear Hspec. simpl.
  split; [by apply delete_selected_is_filter|].
  split; [reflexivity|]. split; [reflexivity|].
  intros Hnone.
  assert (Hsel : selected (fun r => bool_decide (ws r = sock))
                   (activeProcesses w) = []).
  { unfold selected. clear Hwf.
    induction Hnone as [|[k r] m Hr _ IH]; simpl; [done|].
    simpl in Hr. by rewrite (bool_decide_eq_false_2 _ Hr). }
  rewrite Hsel. simpl. apply world_eq; simpl; auto using app_nil_r.
Qed.

(** X5 at work: client 2 leaves, the entry of client 1 stays. *)
Lemma socket_close_keeps_the_others_witness :
  let w' := fst (on_ws_close Scenario.cfg 2 Scenario.two_clients) in
  activeProcesses w' = others 2 (activeProcesses Scenario.two_clients) /\
  running w' = running Scenario.two_clients /\
  listeners w' = listeners Scenario.two_clients /\
  (Forall (fun e => ws (snd e) <> 2) (activeProcesses Scenario.two_clients) ->
   w' = Scenario.two_clients).
Proof.
  apply (socket_close_keeps_the_others Scenario.cfg 2 Scenario.two_clients).
  exact ScenarioFacts.two_clients_wf.
Defined.

(* ------------------------------------------------------------------ *)
(** *** Tags of the registry entries *)

Lemma In_set k r k0 v (m : list (Pid * ProcessRecord)) :
  In (k, r) (JsMap.set k0 v m) -> (k, r) = (k0, v) \/ In (k, r) m.
Proof.
  induction m as [|[k' v'] m IH]; simpl.
  - intros [H|[]]. by left.
  - destruct (decide (k' = k0)); simpl; intros [H|H]; auto.
    destruct (IH H); auto.
Qed.

Lemma In_delete k r k0 (m : list (Pid * ProcessRecord)) :
  In (k, r) (JsMap.delete k0 m) -> k <> k0 /\ In (k, r) m.
Proof.
  induction m as [|[k' v'] m IH]; simpl; [done|].
  destruct (decide (k' = k0)) as [->|Hne]; simpl.
  - intros H. destruct (IH H). auto.
  - intros [[= -> ->]|H]; [auto|]. destruct (IH H). auto.
Qed.

Lemma In_delete_keys k r ks (m : list (Pid * ProcessRecord)) :
  In (k, r) (delete_keys ks m) -> ~ In k ks /\ In (k, r) m.
Proof.
  revert m. induction ks as [|k0 ks IH]; intros m; simpl; [tauto|].
  intros H. apply IH in H as [Hnin H]. apply In_delete in H as [Hne H].
  split; [|done]. intros [->|?]; done.
Qed.

Lemma registry_tagged_core cfg w w' :
  activeProcesses w' = activeProcesses w ->
  open_sockets w' = open_sockets w ->
  registry_tagged cfg w -> registry_tagged cfg w'.
Proof. unfold registry_tagged. intros -> ->. auto. Qed.

Lemma step_keeps_tags cfg w w' :
  step cfg w w' -> registry_tagged cfg w -> registry_tagged cfg w'.
Proof.
  intros Hstep Ht. destruct Hstep as
    [sock w _|sock message o w Hopen Hfree|l data w _|l data w _
    |l err w Hl|l code w Hl|sock w _|path rm w|path outcome w
    |p pr w Hfree|p w Hforeign].
  - intros k r Hin. destruct (Ht k r Hin) as (? & ? & ?).
    repeat split; try done. simpl. by right.
  - destruct (on_message_result cfg sock message o w) as [_ Hres].
    destruct Hres as [|e| |c p _|c err _].
    + done.
    + by apply (registry_tagged_core cfg w).
    + rewrite stop_branch_spec. intros k r []. 
    + intros k r Hin. simpl in Hin. apply In_set in Hin as [[= -> ->]|Hin].
      * by repeat split.
      * exact (Ht k r Hin).
    + intros k r Hin. simpl in Hin. apply In_set in Hin as [[= -> ->]|Hin].
      * by repeat split.
      * exact (Ht k r Hin).
  - by apply (registry_tagged_core cfg w).
  - by apply (registry_tagged_core cfg w).
  - intros k r Hin. simpl in Hin. apply In_delete in Hin as [_ Hin].
    exact (Ht k r Hin).
  - intros k r Hin.
    assert (Hin' : In (k, r) (JsMap.delete (pid (l_child l)) (activeProcesses w))
                   /\ open_sockets (fst (on_child_close l code (reap l w)))
                      = open_sockets w).
    { revert Hin. unfold on_child_close, bind, registry_delete, ws_send.
      by destruct (JsString.includes (l_command l) "create-react-app"). }
    destruct Hin' as [Hin' ->]. apply In_delete in Hin' as [_ Hin'].
    exact (Ht k r Hin').
  - pose proof (on_ws_close_spec cfg sock (hang_up sock w)) as Hspec.
    simpl in Hspec. rewrite Hspec. clear Hspec.
    intros k r Hin. simpl in Hin. apply In_delete_keys in Hin as [Hnin Hin].
    destruct (Ht k r Hin) as (Hp & Hc & Ho). repeat split; try done. simpl.
    apply list_elem_of_In, list_elem_of_filter. split.
    + intros Hown. apply Hnin, selected_In. exists r. split; [done|].
      by apply bool_decide_eq_true_2.
    + by apply list_elem_of_In.
  - destruct (delete_route_adds_effects cfg path rm w) as [es ->].
    by apply (registry_tagged_core cfg w).
  - destruct (storage_delete_route_adds_effects cfg path outcome w) as [es ->].
    by apply (registry_tagged_core cfg w).
  - by apply (registry_tagged_core cfg w).
  - by apply (registry_tagged_core cfg w).
Qed.

(** X6. In every state of the event loop, each registry entry is
    stored under the pid of its own child, records the workspace
    directory as working directory, and is owned by a socket that is
    still open: no process stays registered for a closed connection. *)
Theorem registry_entries_are_tagged (cfg : Config) (w : World) :
  reachable cfg w -> registry_tagged cfg w.
Proof.
  induction 1 as [os|w w' _ IH Hstep].
  - intros k r [].
  - by apply (step_keeps_tags cfg w).
Qed.

(** X6 at work, in the state with two clients. *)
Lemma registry_entries_are_tagged_witness :
  registry_tagged Scenario.cfg Scenario.two_clients.
Proof.
  apply (registry_entries_are_tagged Scenario.cfg Scenario.two_clients).
  exact ScenarioFacts.two_clients_reachable.
Defined.

(* ------------------------------------------------------------------ *)
(** *** Which directories [deleteDirectory] finds users for *)

Lemma startsWith_length s p :
  JsString.startsWith s p = true -> String.length p <= String.length s.
Proof.
  revert s. induction p as [|c p IH]; intros s; simpl; [lia|].
  destruct s as [|d s]; [discriminate|].
  destruct (Ascii.eqb c d); [|discriminate].
  intros H. apply IH in H. simpl. lia.
Qed.

Lemma includes_length s sub :
  JsString.includes s sub = true -> String.length sub <= String.length s.
Proof.
  induction s as [|c s IH]; simpl.
  - destruct (JsString.startsWith "" sub) eqn:E; [|discriminate].
    intros _. by apply startsWith_length in E.
  - destruct (JsString.startsWith (String c s) sub) eqn:E.
    + intros _. by apply startsWith_length in E.
    + intros H. apply IH in H. lia.
Qed.

Lemma reachable_tags cfg w : reachable cfg w -> registry_tagged cfg w.
Proof.
  induction 1 as [os|w w' _ IH Hstep]; [intros k r []|].
  by apply (step_keeps_tags cfg w).
Qed.

Lemma directory_users_in_workspace cfg w dirPath :
  reachable cfg w ->
  JsString.includes (WORKSPACE_DIR cfg) dirPath = false ->
  directory_users dirPath w = [].
Proof.
  intros Hreach Hnot. apply reachable_tags in Hreach.
  unfold directory_users, JsMap.values.
  assert (Hcwd : forall k r, In (k, r) (activeProcesses w) ->
                             cwd r = WORKSPACE_DIR cfg)
    by (intros k r Hin; by destruct (Hreach k r Hin) as (_ & ? & _)).
  clear Hreach. induction (activeProcesses w) as [|[k r] m IH]; [done|].
  simpl. rewrite (Hcwd k r (or_introl eq_refl)), Hnot.
  apply IH. intros k' r' Hin. apply (Hcwd k'). by right.
Qed.

(** X7. Every registered process runs in the workspace directory, so
    [deleteDirectory] looks for users of a path by testing whether the
    path occurs inside the workspace directory's own path: for any
    other path (every proper subdirectory of the workspace, being
    longer) it finds none and attempts no kill at all; it waits one
    second and removes the path, logging a failure of the removal. *)
Theorem deleteDirectory_finds_no_users_below_workspace
    (cfg : Config) (dirPath : string) (rm_outcome : option string) (w : World) :
  reachable cfg w ->
  JsString.includes (WORKSPACE_DIR cfg) dirPath = false ->
  fst (deleteDirectory cfg dirPath rm_outcome w) =
    add_effects ([Sleep 1000; FsRm dirPath] ++ rm_log rm_outcome) w.
Proof.
  intros Hreach Hnot. rewrite deleteDirectory_spec. simpl.
  by rewrite (directory_users_in_workspace cfg w dirPath Hreach Hnot).
Qed.

Lemma longer_path_is_not_included s sub :
  String.length s < String.length sub -> JsString.includes s sub = false.
Proof.
  intros Hlen. destruct (JsString.includes s sub) eqn:H; [|done].
  apply includes_length in H. lia.
Qed.

(** X7 at work: with two processes registered, deleting the
    subdirectory [src] of the workspace signals nobody. *)
Lemma deleteDirectory_finds_no_users_below_workspace_witness :
  fst (deleteDirectory Scenario.cfg "/srv/app/workspace/src" None
         Scenario.two_clients) =
    add_effects ([Sleep 1000; FsRm "/srv/app/workspace/src"] ++ rm_log None)
      Scenario.two_clients.
Proof.
  apply (deleteDirectory_finds_no_users_below_workspace Scenario.cfg
           "/srv/app/workspace/src" None Scenario.two_clients).
  - exact ScenarioFacts.two_clients_reachable.
  - apply longer_path_is_not_included. vm_compute. lia.
Defined.

(* ------------------------------------------------------------------ *)
(** *** The answer of the guarded delete route *)



(* ================================================================== *)
(** ** Paths: splitting, joining and normalizing *)
(* ================================================================== *)

Module PathFacts.
Import Path.

Lemma append_cons c s t : String c s +:+ t = String c (s +:+ t).
Proof. reflexivity. Qed.

Lemma append_nil_l t : "" +:+ t = t.
Proof. reflexivity. Qed.

Lemma append_nil_r s : s +:+ "" = s.
Proof.
  induction s as [|c s IH]; [done|]. by rewrite append_cons, IH.
Qed.

Lemma append_assoc a b c : (a +:+ b) +:+ c = a +:+ (b +:+ c).
Proof.
  induction a as [|x a IH]; [done|]. by rewrite !append_cons, IH.
Qed.

Lemma startsWith_append s r : JsString.startsWith (s +:+ r) s = true.
Proof.
  induction s as [|c s IH]; [done|].
  rewrite append_cons. cbn [JsString.startsWith].
  by rewrite Ascii.eqb_refl.
Qed.

Lemma rev_app_append s1 s2 : String.rev_app s1 s2 = String.rev_app s1 "" +:+ s2.
Proof.
  revert s2. induction s1 as [|c s1 IH]; intros s2; [done|].
  cbn [String.rev_app].
  rewrite IH, (IH (String c "")), append_assoc. done.
Qed.

Lemma rev_cons c cur : String.rev (String c cur) = String.rev cur +:+ String c "".
Proof. unfold String.rev. cbn [String.rev_app]. apply rev_app_append. Qed.

(** One step of [split_aux], with the test on the character spelled
    out. *)
Lemma split_aux_cons c s cur :
  split_aux (String c s) cur =
    if Ascii.eqb c "/" then String.rev cur :: split_aux s EmptyString
    else split_aux s (String c cur).
Proof.
  destruct c as [[] [] [] [] [] [] [] []]; reflexivity.
Qed.

Lemma includes_slash_cons c s :
  JsString.includes (String c s) "/" =
    (Ascii.eqb "/" c || JsString.includes s "/").
Proof.
  cbn [JsString.includes JsString.startsWith].
  by destruct (Ascii.eqb "/" c).
Qed.

Lemma split_aux_no_slash s cur :
  JsString.includes s "/" = false ->
  split_aux s cur = [String.rev cur +:+ s].
Proof.
  revert cur. induction s as [|c s IH]; intros cur Hs.
  - cbn [split_aux]. by rewrite append_nil_r.
  - rewrite includes_slash_cons in Hs. apply orb_false_elim in Hs as [Hc Hs].
    rewrite split_aux_cons, Ascii.eqb_sym, Hc, (IH _ Hs), rev_cons, append_assoc.
    done.
Qed.

Lemma split_no_slash s : JsString.includes s "/" = false -> split s = [s].
Proof. intros Hs. unfold split. by rewrite split_aux_no_slash. Qed.

Lemma split_aux_app_slash a b cur :
  split_aux (a +:+ "/" +:+ b) cur = split_aux a cur ++ split b.
Proof.
  revert cur. induction a as [|c a IH]; intros cur.
  - reflexivity.
  - rewrite append_cons, !split_aux_cons.
    destruct (Ascii.eqb c "/"); [|apply IH].
    rewrite <- app_comm_cons. f_equal. apply IH.
Qed.

Lemma split_app_slash a b : split (a +:+ "/" +:+ b) = split a ++ split b.
Proof. apply split_aux_app_slash. Qed.

Lemma split_slash_prefix s : split ("/" +:+ s) = EmptyString :: split s.
Proof. reflexivity. Qed.

Lemma unsplit_cons x segs :
  segs <> [] -> unsplit (x :: segs) = x +:+ "/" +:+ unsplit segs.
Proof. by destruct segs. Qed.

Lemma unsplit_app a b :
  a <> [] -> b <> [] -> unsplit (a ++ b) = unsplit a +:+ "/" +:+ unsplit b.
Proof.
  intros Ha Hb. induction a as [|x a IH]; [done|].
  destruct a as [|y a].
  - simpl. by destruct b.
  - change ((x :: y :: a) ++ b) with (x :: (y :: a) ++ b).
    rewrite !unsplit_cons by done. rewrite IH by done.
    by rewrite !append_assoc.
Qed.

Lemma split_unsplit segs :
  segs <> [] ->
  Forall (fun s => JsString.includes s "/" = false) segs ->
  split (unsplit segs) = segs.
Proof.
  intros Hne Hall. induction Hall as [|x segs Hx Hall IH]; [done|].
  destruct segs as [|y segs].
  - simpl. by apply split_no_slash.
  - rewrite unsplit_cons by done. rewrite split_app_slash.
    rewrite split_no_slash by done. simpl. f_equal. by apply IH.
Qed.

Lemma unsplit_nonempty x segs :
  x <> EmptyString -> unsplit (x :: segs) <> EmptyString.
Proof.
  intros Hx. destruct segs; cbn [unsplit]; [done|].
  destruct x; [done|discriminate].
Qed.

(** Without [..] among them, normalizing segments only drops the empty
    ones and the dots. *)
Lemma normalizeSegments_no_dotdot allow segs stack :
  Forall (fun s => s <> "..") segs ->
  normalizeSegments allow segs stack = rev stack ++ List.filter kept segs.
Proof.
  intros Hall. revert stack.
  induction Hall as [|seg segs Hseg Hall IH]; intros stack; simpl.
  - by rewrite app_nil_r.
  - unfold kept at 1.
    destruct (String.eqb seg "" || String.eqb seg "."); simpl; [apply IH|].
    apply String.eqb_neq in Hseg. rewrite Hseg, IH. simpl.
    by rewrite <- app_assoc.
Qed.

Lemma plain_is_kept seg : plain_segment seg -> kept seg = true.
Proof.
  intros (H1 & H2 & _). unfold kept.
  apply String.eqb_neq in H1, H2. by rewrite H1, H2.
Qed.

Lemma filter_kept_plain segs :
  Forall plain_segment segs -> List.filter kept segs = segs.
Proof.
  induction 1 as [|x segs Hx _ IH]; simpl; [done|].
  by rewrite (plain_is_kept x Hx), IH.
Qed.

Lemma plain_no_dotdot segs :
  Forall plain_segment segs -> Forall (fun s => s <> "..") segs.
Proof.
  intros H. eapply Forall_impl; [exact H|]. by intros s (_ & _ & ? & _).
Qed.

Lemma plain_no_slash segs :
  Forall plain_segment segs ->
  Forall (fun s => JsString.includes s "/" = false) segs.
Proof.
  intros H. eapply Forall_impl; [exact H|]. by intros s (_ & _ & _ & ?).
Qed.

Lemma kept_no_dotdot segs :
  Forall (fun s => s <> "..") segs ->
  Forall (fun s => s <> "..") (List.filter kept segs).
Proof.
  induction 1 as [|x segs Hx _ IH]; simpl; [constructor|].
  destruct (kept x); [by constructor|done].
Qed.

End PathFacts.

(* ------------------------------------------------------------------ *)
(** *** Joining a request path to the workspace directory *)

Lemma join_pair a b :
  a <> "" ->
  Path.join [a; b] =
    Path.normalize (if String.eqb b "" then a else a +:+ "/" +:+ b).
Proof.
  intros Ha. unfold Path.join.
  apply String.eqb_neq in Ha.
  rewrite !filter_cons, filter_nil. rewrite Ha.
  by destruct (String.eqb b "") eqn:Hb; simpl.
Qed.

(** [normalize] on an absolute path. *)
Lemma normalize_abs s :
  Path.normalize ("/" +:+ s) =
    let res := Path.unsplit (Path.normalizeSegments false (Path.split s) []) in
    if String.eqb res "" then "/"
    else "/" +:+ (if Path.endsWithSlash ("/" +:+ s) then res +:+ "/" else res).
Proof. reflexivity. Qed.

Lemma plain_nonempty seg : plain_segment seg -> seg <> "".
Proof. by intros (? & _). Qed.

(** An absolute path made of plain segments, followed by segments
    without [..], normalizes to the plain segments followed by those
    of the rest that are neither empty nor [.]; a trailing slash is
    kept. *)
Lemma normalize_below_exact rs ys s :
  rs <> [] -> Forall plain_segment rs ->
  Forall (fun x => x <> "..") ys ->
  Path.split s = rs ++ ys ->
  Path.normalize ("/" +:+ s) =
    abs_path (rs ++ List.filter kept ys) +:+
      (if Path.endsWithSlash ("/" +:+ s) then "/" else "").
Proof.
  intros Hne Hplain Hys Hsplit.
  rewrite normalize_abs, Hsplit. cbv zeta.
  rewrite PathFacts.normalizeSegments_no_dotdot
    by (apply Forall_app; split; [by apply PathFacts.plain_no_dotdot|done]).
  rewrite List.filter_app, PathFacts.filter_kept_plain by done. simpl rev.
  rewrite app_nil_l.
  destruct rs as [|r rs]; [done|].
  assert (Hres : Path.unsplit ((r :: rs) ++ List.filter kept ys) <> "").
  { rewrite <- app_comm_cons. apply PathFacts.unsplit_nonempty.
    apply plain_nonempty. by inversion Hplain. }
  apply String.eqb_neq in Hres. rewrite Hres.
  destruct (Path.endsWithSlash _).
  - unfold abs_path.
    by rewrite !PathFacts.append_cons, PathFacts.append_nil_l.
  - by rewrite PathFacts.append_nil_r.
Qed.

Lemma normalize_below rs ys s :
  rs <> [] -> Forall plain_segment rs ->
  Forall (fun x => x <> "..") ys ->
  Path.split s = rs ++ ys ->
  exists t, (t = "" \/ t = "/") /\
    Path.normalize ("/" +:+ s) = abs_path (rs ++ List.filter kept ys) +:+ t.
Proof.
  intros Hne Hplain Hys Hsplit.
  rewrite (normalize_below_exact rs ys s) by done.
  destruct (Path.endsWithSlash _); eexists; (split; [|reflexivity]); auto.
Qed.

Lemma join_below rs q :
  rs <> [] -> Forall plain_segment rs ->
  Forall (fun x => x <> "..") (Path.split q) ->
  exists t, (t = "" \/ t = "/") /\
    Path.join [abs_path rs; q] =
      abs_path (rs ++ List.filter kept (Path.split q)) +:+ t.
Proof.
  intros Hne Hplain Hq.
  rewrite join_pair by done.
  destruct (String.eqb_spec q "") as [->|_].
  - destruct (normalize_below rs [] (Path.unsplit rs) Hne Hplain)
      as (t & Ht & Hn); [constructor| |].
    { rewrite app_nil_r. apply PathFacts.split_unsplit; [done|].
      by apply PathFacts.plain_no_slash. }
    exists t. split; [done|]. exact Hn.
  - destruct (normalize_below rs (Path.split q)
                (Path.unsplit rs +:+ "/" +:+ q) Hne Hplain Hq)
      as (t & Ht & Hn).
    { rewrite PathFacts.split_app_slash. f_equal.
      apply PathFacts.split_unsplit; [done|].
      by apply PathFacts.plain_no_slash. }
    exists t. split; [done|]. exact Hn.
Qed.

(** A path below the root, with or without a trailing slash, lies in
    the tree of the root. *)
Lemma below_is_inside rs xs t :
  rs <> [] -> (t = "" \/ t = "/") ->
  inside_root (abs_path rs) (abs_path (rs ++ xs) +:+ t) = true.
Proof.
  intros Hne Ht. unfold inside_root. apply orb_true_iff.
  destruct xs as [|x xs].
  - rewrite app_nil_r. destruct Ht as [->| ->].
    + left. rewrite PathFacts.append_nil_r. apply String.eqb_refl.
    + right. apply JsStringFacts.startsWith_refl.
  - right. unfold abs_path.
    rewrite PathFacts.unsplit_app by done.
    rewrite !PathFacts.append_cons, !PathFacts.append_nil_l.
    cbn [JsString.startsWith]. rewrite Ascii.eqb_refl.
    replace ((Path.unsplit rs +:+ String "/" (Path.unsplit (x :: xs))) +:+ t)
      with ((Path.unsplit rs +:+ "/") +:+ (Path.unsplit (x :: xs) +:+ t))
      by (by rewrite !PathFacts.append_assoc).
    apply PathFacts.startsWith_append.
Qed.

Lemma inside_root_passes_guard root target :
  inside_root root target = true -> JsString.startsWith target root = true.
Proof.
  intros Hin. destruct (JsString.startsWith target root) eqn:Hg; [done|].
  apply guard_rejects_only_outsiders in Hg. congruence.
Qed.

(** The answer of the guarded route once the guard has let the target
    through. *)
Lemma delete_route_accepted cfg p rm_outcome w :
  JsString.startsWith (Path.join [WORKSPACE_DIR cfg; JsString.cleanPath p])
    (WORKSPACE_DIR cfg) = true ->
  status (snd (delete_route cfg (Some (JString p)) rm_outcome w)) =
    (match rm_outcome with None => 200%Z | Some _ => 500%Z end).
Proof.
  intros Hguard.
  unfold delete_route, respond_catch, bind, body_path_string, ret.
  rewrite Hguard. cbn [negb]. rewrite deleteDirectory_spec.
  by destruct rm_outcome.
Qed.

(** X10. A request path is never refused for leaving the workspace
    when, once cleaned, it has no [..] segment: the joined target is
    made of the segments of the workspace directory followed by those
    of the cleaned path that are neither empty nor [.], with at most a
    trailing slash; it is the workspace directory or lies below it; the
    string test of the guard passes; and the route answers 200 or 500,
    never 403. The workspace directory is an absolute path of plain
    segments, as [path.join] and the production constant make it. *)
Theorem path_without_dotdot_is_accepted
    (cfg : Config) (rs : list string) (p : string)
    (rm_outcome : option string) (w : World) :
  WORKSPACE_DIR cfg = abs_path rs ->
  rs <> [] ->
  Forall plain_segment rs ->
  Forall (fun seg => seg <> "..") (Path.split (JsString.cleanPath p)) ->
  let target := Path.join [WORKSPACE_DIR cfg; JsString.cleanPath p] in
  let below := List.filter kept (Path.split (JsString.cleanPath p)) in
  (target = abs_path (rs ++ below) \/
   target = abs_path (rs ++ below) +:+ "/") /\
  inside_root (WORKSPACE_DIR cfg) target = true /\
  JsString.startsWith target (WORKSPACE_DIR cfg) = true /\
  status (snd (delete_route cfg (Some (JString p)) rm_outcome w)) =
    (match rm_outcome with None => 200%Z | Some _ => 500%Z end).
Proof.
  intros Hroot Hne Hplain Hp target below.
  destruct (join_below rs (JsString.cleanPath p) Hne Hplain Hp)
    as (t & Ht & Hjoin).
  assert (Htarget : target = abs_path (rs ++ below) +:+ t)
    by (subst target; by rewrite Hroot).
  assert (Hin : inside_root (WORKSPACE_DIR cfg) target = true)
    by (rewrite Htarget, Hroot; by apply below_is_inside).
  assert (Hguard := inside_root_passes_guard _ _ Hin).
  split.
  { destruct Ht as [->| ->]; [left|right]; [|done].
    by rewrite Htarget, PathFacts.append_nil_r. }
  split; [done|]. split; [done|].
  by apply delete_route_accepted.
Qed.

Lemma path_without_dotdot_is_accepted_witness :
  let cfg := Scenario.cfg in
  let target :=
    Path.join [WORKSPACE_DIR cfg; JsString.cleanPath "/src/./index.js"] in
  let below := List.filter kept (Path.split (JsString.cleanPath "/src/./index.js")) in
  (target = abs_path (["srv"; "app"; "workspace"] ++ below) \/
   target = abs_path (["srv"; "app"; "workspace"] ++ below) +:+ "/") /\
  inside_root (WORKSPACE_DIR cfg) target = true /\
  JsString.startsWith target (WORKSPACE_DIR cfg) = true /\
  status (snd (delete_route cfg (Some (JString "/src/./index.js")) None sleeping))
    = 200%Z.
Proof.
  apply (path_without_dotdot_is_accepted Scenario.cfg
           ["srv"; "app"; "workspace"] "/src/./index.js" None sleeping).
  - reflexivity.
  - discriminate.
  - repeat constructor; discriminate.
  - repeat constructor; discriminate.
Defined.

(** Through the storage manager as well: the unlinked path. *)
Lemma storage_delete_unlinks cfg path outcome w :
  isProduction cfg = false ->
  trace (fst (storage_delete_route cfg path outcome w)) =
    trace w ++ FsUnlink (Path.join [LOCAL_WORKSPACE_DIR cfg; path])
      :: match outcome with
         | None => []
         | Some e => [ConsoleError "Error deleting file:" e]
         end.
Proof.
  intros Hdev.
  unfold storage_delete_route, respond_catch, deleteFile, bind.
  rewrite Hdev. destruct outcome; simpl; rewrite <- ?app_assoc; reflexivity.
Qed.

(** X11. The storage manager has no guard, yet outside production a
    path without a [..] segment stays in the local workspace: the one
    file-system call of the route unlinks a path made of the segments
    of the local workspace directory followed by those of the request
    path that are neither empty nor [.]; that path is the workspace
    directory or lies below it. A leading slash does not make the path
    absolute. *)
Theorem storage_delete_stays_inside_without_dotdot
    (cfg : Config) (rs : list string) (path : string)
    (outcome : option string) (w : World) :
  isProduction cfg = false ->
  LOCAL_WORKSPACE_DIR cfg = abs_path rs ->
  rs <> [] ->
  Forall plain_segment rs ->
  Forall (fun seg => seg <> "..") (Path.split path) ->
  let below := List.filter kept (Path.split path) in
  exists target,
    (target = abs_path (rs ++ below) \/
     target = abs_path (rs ++ below) +:+ "/") /\
    inside_root (LOCAL_WORKSPACE_DIR cfg) target = true /\
    trace (fst (storage_delete_route cfg path outcome w)) =
      trace w ++ FsUnlink target
        :: match outcome with
           | None => []
           | Some e => [ConsoleError "Error deleting file:" e]
           end.
Proof.
  intros Hdev Hroot Hne Hplain Hp below.
  destruct (join_below rs path Hne Hplain Hp) as (t & Ht & Hjoin).
  exists (Path.join [LOCAL_WORKSPACE_DIR cfg; path]).
  rewrite Hroot, Hjoin. split; [|split].
  - destruct Ht as [->| ->]; [left|right]; [|done].
    by rewrite PathFacts.append_nil_r.
  - by apply below_is_inside.
  - rewrite <- Hjoin, <- Hroot. by apply storage_delete_unlinks.
Qed.

Lemma storage_delete_stays_inside_without_dotdot_witness :
  let cfg := Scenario.cfg in
  exists target,
    (target = "/srv/app/workspace/etc/passwd" \/
     target = "/srv/app/workspace/etc/passwd" +:+ "/") /\
    inside_root (LOCAL_WORKSPACE_DIR cfg) target = true /\
    trace (fst (storage_delete_route cfg "/etc/passwd" None Scenario.quiet)) =
      trace Scenario.quiet ++ [FsUnlink target].
Proof.
  apply (storage_delete_stays_inside_without_dotdot Scenario.cfg
           ["srv"; "app"; "workspace"] "/etc/passwd" None Scenario.quiet).
  - reflexivity.
  - reflexivity.
  - discriminate.
  - repeat constructor; discriminate.
  - repeat constructor; discriminate.
Defined.

(* ------------------------------------------------------------------ *)
(** *** Cleaning a request path *)

Lemma stripLeadingSlashes_cons c s :
  JsString.stripLeadingSlashes (String c s) =
    if Ascii.eqb c "/" then JsString.stripLeadingSlashes s else String c s.
Proof. destruct c as [[] [] [] [] [] [] [] []]; reflexivity. Qed.

Lemma stripLeadingSlashes_relative s :
  Path.isAbsolute (JsString.stripLeadingSlashes s) = false.
Proof.
  unfold Path.isAbsolute. induction s as [|c s IH]; [done|].
  rewrite stripLeadingSlashes_cons.
  destruct (Ascii.eqb c "/") eqn:Hc; [done|].
  cbn [JsString.startsWith]. by rewrite Ascii.eqb_sym, Hc.
Qed.

Lemma substring_all s : String.substring 0 (String.length s) s = s.
Proof. induction s as [|c s IH]; [done|]. simpl. by rewrite IH. Qed.

(** X9. Request paths are made relative before they are joined to the
    workspace directory: the cleaned path never starts with a slash; a
    leading slash is dropped, so [/x] and [x] are the same request to
    the delete route; and one leading [workspace/] is dropped together
    with the slashes that follow it. *)
Theorem request_paths_are_made_relative
    (cfg : Config) (p : string) (rm_outcome : option string) (w : World) :
  Path.isAbsolute (JsString.cleanPath p) = false /\
  JsString.cleanPath ("/" +:+ p) = JsString.cleanPath p /\
  JsString.cleanPath ("workspace/" +:+ p) = JsString.stripLeadingSlashes p /\
  delete_route cfg (Some (JString ("/" +:+ p))) rm_outcome w =
    delete_route cfg (Some (JString p)) rm_outcome w.
Proof.
  split; [|split; [|split]].
  - unfold JsString.cleanPath, JsString.stripWorkspacePrefix.
    destruct (JsString.startsWith _ "workspace/");
      apply stripLeadingSlashes_relative.
  - reflexivity.
  - unfold JsString.cleanPath, JsString.stripWorkspacePrefix.
    change (JsString.stripLeadingSlashes ("workspace/" +:+ p))
      with ("workspace/" +:+ p).
    rewrite PathFacts.startsWith_append.
    change (String.length ("workspace/" +:+ p) - 9)%nat
      with (S (String.length p)).
    change (String.substring 9 (S (String.length p)) ("workspace/" +:+ p))
      with (String "/" (String.substring 0 (String.length p) p)).
    by rewrite substring_all.
  - reflexivity.
Qed.

(* ------------------------------------------------------------------ *)
(** *** The name and the path of a directory entry *)

Lemma includes_char_cons c d s :
  JsString.includes (String d s) (String c "") =
    (Ascii.eqb c d || JsString.includes s (String c "")).
Proof.
  cbn [JsString.includes JsString.startsWith].
  by destruct (Ascii.eqb c d).
Qed.

Lemma includes_char_app c a b :
  JsString.includes (a +:+ b) (String c "") =
    (JsString.includes a (String c "") || JsString.includes b (String c "")).
Proof.
  induction a as [|d a IH]; [done|].
  by rewrite PathFacts.append_cons, !includes_char_cons, IH, orb_assoc.
Qed.

Lemma split_aux_segments s cur :
  JsString.includes (String.rev cur) "/" = false ->
  Forall (fun seg => JsString.includes seg "/" = false) (Path.split_aux s cur).
Proof.
  revert cur. induction s as [|c s IH]; intros cur Hcur.
  - by constructor.
  - rewrite PathFacts.split_aux_cons.
    destruct (Ascii.eqb c "/") eqn:Hc.
    + constructor; [done|]. by apply IH.
    + apply IH. rewrite PathFacts.rev_cons, includes_char_app, Hcur.
      rewrite includes_char_cons, Ascii.eqb_sym, Hc. done.
Qed.

Lemma split_segments s :
  Forall (fun seg => JsString.includes seg "/" = false) (Path.split s).
Proof. by apply split_aux_segments. Qed.

Lemma normalizeSegments_Forall (P : string -> Prop) allow segs stack :
  P ".." -> Forall P segs -> Forall P stack ->
  Forall P (Path.normalizeSegments allow segs stack).
Proof.
  intros Hdd Hsegs. revert stack.
  induction Hsegs as [|seg segs Hseg _ IH]; intros stack Hstack.
  - by apply Forall_rev.
  - cbn [Path.normalizeSegments].
    destruct (String.eqb seg "" || String.eqb seg "."); [by apply IH|].
    destruct (String.eqb seg "..").
    + destruct stack as [|top below].
      * apply IH. destruct allow; by repeat constructor.
      * destruct (String.eqb top "..").
        -- apply IH. destruct allow; [by constructor|done].
        -- apply IH. by inversion Hstack.
    + apply IH. by constructor.
Qed.

Lemma normalizeSegments_snoc allow segs n stack :
  plain_segment n ->
  Path.normalizeSegments allow (segs ++ [n]) stack =
    Path.normalizeSegments allow segs stack ++ [n].
Proof.
  intros (H1 & H2 & H3 & _).
  apply String.eqb_neq in H1, H2, H3.
  revert stack. induction segs as [|seg segs IH]; intros stack.
  - cbn [app Path.normalizeSegments]. by rewrite H1, H2, H3.
  - rewrite <- app_comm_cons. cbn [Path.normalizeSegments].
    destruct (String.eqb seg "" || String.eqb seg "."); [by apply IH|].
    destruct (String.eqb seg "..").
    + destruct stack as [|top below]; [by apply IH|].
      destruct (String.eqb top ".."); by apply IH.
    + by apply IH.
Qed.

Lemma endsWithSlash_one c :
  Path.endsWithSlash (String c "") = Ascii.eqb c "/".
Proof. destruct c as [[] [] [] [] [] [] [] []]; reflexivity. Qed.

Lemma endsWithSlash_cons c d s :
  Path.endsWithSlash (String c (String d s)) = Path.endsWithSlash (String d s).
Proof.
  unfold Path.endsWithSlash. cbn [String.length Nat.sub String.get].
  by rewrite Nat.sub_0_r.
Qed.

Lemma append_nonempty a n : n <> "" -> a +:+ n <> "".
Proof. intros Hn. by destruct a. Qed.

Lemma endsWithSlash_app a n :
  n <> "" -> Path.endsWithSlash (a +:+ n) = Path.endsWithSlash n.
Proof.
  intros Hn. induction a as [|c a IH]; [done|].
  rewrite PathFacts.append_cons.
  destruct (a +:+ n) as [|d r] eqn:E; [by apply append_nonempty in E|].
  by rewrite endsWithSlash_cons.
Qed.

Lemma endsWithSlash_plain n :
  n <> "" -> JsString.includes n "/" = false -> Path.endsWithSlash n = false.
Proof.
  induction n as [|c n IH]; [done|]. intros _ Hn.
  rewrite includes_char_cons in Hn. apply orb_false_elim in Hn as [Hc Hn].
  destruct n as [|d n].
  - by rewrite endsWithSlash_one, Ascii.eqb_sym.
  - rewrite endsWithSlash_cons. by apply IH.
Qed.

(** Whatever the directory, the joined path ends with the entry's name
    when that name is a plain segment. *)
Lemma normalize_snoc pre p n :
  plain_segment n ->
  Path.split p = pre ++ [n] ->
  p <> "" ->
  Path.endsWithSlash p = false ->
  exists ys,
    Forall (fun seg => JsString.includes seg "/" = false) ys /\
    Path.normalize p =
      (if Path.isAbsolute p then "/" else "") +:+ Path.unsplit (ys ++ [n]).
Proof.
  intros Hn Hsplit Hp Htrail.
  exists (Path.normalizeSegments (negb (Path.isAbsolute p)) pre []).
  split.
  { apply normalizeSegments_Forall; [done| |constructor].
    assert (H := split_segments p). rewrite Hsplit in H.
    by apply Forall_app in H as [H _]. }
  unfold Path.normalize. apply String.eqb_neq in Hp. rewrite Hp.
  cbv zeta. rewrite Htrail, Hsplit, normalizeSegments_snoc by done.
  set (ys := Path.normalizeSegments _ pre []).
  assert (Hres : Path.unsplit (ys ++ [n]) <> "").
  { destruct Hn as (Hn & _). destruct ys as [|y ys]; [done|].
    rewrite <- app_comm_cons, PathFacts.unsplit_cons by (by destruct ys).
    by destruct y. }
  apply String.eqb_neq in Hres. rewrite Hres.
  by destruct (Path.isAbsolute p).
Qed.

Lemma join_entry_pair a b :
  b <> "" ->
  Path.join [a; b] =
    Path.normalize (if String.eqb a "" then b else a +:+ "/" +:+ b).
Proof.
  intros Hb. unfold Path.join.
  apply String.eqb_neq in Hb.
  rewrite !filter_cons, filter_nil. rewrite Hb.
  by destruct (String.eqb a ""); simpl.
Qed.

Lemma plain_is_relative n : plain_segment n -> Path.isAbsolute n = false.
Proof.
  intros (Hn & _ & _ & Hslash).
  destruct n as [|c n]; [done|]. unfold Path.isAbsolute.
  rewrite includes_char_cons in Hslash.
  apply orb_false_elim in Hslash as [Hc _].
  cbn [JsString.startsWith]. by rewrite Hc.
Qed.

Lemma isAbsolute_app a b :
  a <> "" -> Path.isAbsolute (a +:+ b) = Path.isAbsolute a.
Proof. intros Ha. by destruct a. Qed.

Lemma join_entry dirPath n :
  plain_segment n ->
  exists ys,
    Forall (fun seg => JsString.includes seg "/" = false) ys /\
    Path.join [dirPath; n] =
      (if Path.isAbsolute dirPath then "/" else "") +:+ Path.unsplit (ys ++ [n]).
Proof.
  intros Hplain. assert (Hn := Hplain). destruct Hn as (Hn & _ & _ & Hslash).
  rewrite join_entry_pair by done.
  destruct (String.eqb_spec dirPath "") as [->|Hdir].
  - destruct (normalize_snoc [] n n Hplain) as (ys & Hys & Hnorm);
      [by apply PathFacts.split_no_slash|done|by apply endsWithSlash_plain|].
    exists ys. split; [done|]. rewrite Hnorm.
    by rewrite plain_is_relative.
  - destruct (normalize_snoc (Path.split dirPath) (dirPath +:+ "/" +:+ n) n
                Hplain) as (ys & Hys & Hnorm).
    + rewrite PathFacts.split_app_slash. f_equal.
      by apply PathFacts.split_no_slash.
    + by destruct dirPath.
    + rewrite endsWithSlash_app by done.
      destruct n as [|c n]; [done|].
      change ("/" +:+ String c n) with (String "/" (String c n)).
      rewrite endsWithSlash_cons. by apply endsWithSlash_plain.
    + exists ys. split; [done|]. rewrite Hnorm.
      by rewrite isAbsolute_app.
Qed.

Lemma basename_join dirPath n :
  plain_segment n -> Path.basename (Path.join [dirPath; n]) = n.
Proof.
  intros Hplain. destruct (join_entry dirPath n Hplain) as (ys & Hys & ->).
  assert (Hn := Hplain). destruct Hn as (Hn & _ & _ & Hslash).
  assert (Hsplit : Path.split (Path.unsplit (ys ++ [n])) = ys ++ [n]).
  { apply PathFacts.split_unsplit; [by destruct ys|].
    apply Forall_app. split; [done|]. by constructor. }
  unfold Path.basename.
  assert (Hlast : forall l,
    rev (filter (fun a => negb (String.eqb a "")) (l ++ [n])) =
      n :: rev (filter (fun a => negb (String.eqb a "")) l)).
  { intros l. rewrite filter_app, filter_cons, filter_nil.
    apply String.eqb_neq in Hn. rewrite Hn. simpl. by rewrite rev_unit. }
  destruct (Path.isAbsolute dirPath).
  - change ("/" +:+ Path.unsplit (ys ++ [n]))
      with (String "/" (Path.unsplit (ys ++ [n]))).
    change (Path.split (String "/" (Path.unsplit (ys ++ [n]))))
      with (EmptyString :: Path.split (Path.unsplit (ys ++ [n]))).
    rewrite Hsplit, app_comm_cons, Hlast. done.
  - rewrite PathFacts.append_nil_l, Hsplit, Hlast. done.
Qed.

Section ListingEntries.
Variable config_dirname : string.
Variable wd : string.
Variable fs : Files.FileSystem.
Variable localeCompare : string -> string -> Z.

Lemma entry_info_describes dirPath n :
  plain_segment n ->
  is_Some (Files.stat fs (Path.join [dirPath; n])) ->
  exists e,
    Files.entry_info config_dirname wd fs dirPath n = Normal e /\
    Files.name e = n /\
    describes fs dirPath e.
Proof.
  intros Hn [st Hst].
  unfold Files.entry_info, Files.getFileInfo, Files.getFileType.
  rewrite Hst. cbn [Files.type].
  assert (Htype :
    (if Files.isDirectory st then Files.Directory
     else if JsString.startsWith
               (Path.basename (Path.join [dirPath; n])) "."
          then Files.File else Files.File) =
    (if Files.isDirectory st then Files.Directory else Files.File)).
  { destruct (Files.isDirectory st); [done|]. by destruct (JsString.startsWith _ _). }
  rewrite Htype. clear Htype.
  destruct (Files.isDirectory st) eqn:Hdir.
  - destruct (Files.readdir fs (Path.join [dirPath; n])) as [kids|] eqn:Hkids;
      (eexists; split; [reflexivity|]);
      (split; [by apply basename_join|]);
      unfold describes; cbn [Files.name Files.with_children Files.type
        Files.size Files.modified Files.children];
      rewrite (basename_join dirPath n Hn);
      exists st; by rewrite Hst, Hdir, Hkids.
  - eexists; split; [reflexivity|]. split; [by apply basename_join|].
    unfold describes. cbn [Files.name Files.type Files.size Files.modified
      Files.children].
    rewrite (basename_join dirPath n Hn).
    exists st. by rewrite Hst, Hdir.
Qed.

Lemma promise_all_describes dirPath names :
  Forall plain_segment names ->
  Forall (fun n => is_Some (Files.stat fs (Path.join [dirPath; n]))) names ->
  exists contents,
    Files.promise_all (map (Files.entry_info config_dirname wd fs dirPath) names)
    = Normal contents /\
    map Files.name contents = names /\
    Forall (describes fs dirPath) contents.
Proof.
  intros Hplain. induction Hplain as [|n names Hn _ IH]; intros Hstat.
  - exists []. by repeat split.
  - inversion Hstat as [|? ? Hst Hstats]; subst.
    destruct (IH Hstats) as (contents & Hall & Hnames & Hdesc).
    destruct (entry_info_describes dirPath n Hn Hst) as (e & He & Hname & Hd).
    exists (e :: contents). cbn [map Files.promise_all].
    rewrite He, Hall. split; [done|]. split; [by rewrite <- Hname, <- Hnames|].
    by constructor.
Qed.

(** X12. A listing describes the directory it was asked for. When the
    directory can be read, its entries have plain names and each one
    can be examined, [getDirectoryContents] returns one entry per
    directory entry, under exactly the names the directory holds; the
    kind, size and modification time of each are those [stat] reports
    for the object of that name in the directory; and the [children]
    flag is set on directories only, telling whether the directory has
    entries ([false] when it cannot be read). *)
Theorem listing_describes_the_directory (dirPath : string) (names : list string) :
  Files.readdir fs dirPath = Some names ->
  Forall plain_segment names ->
  Forall (fun n => is_Some (Files.stat fs (Path.join [dirPath; n]))) names ->
  exists contents,
    Files.getDirectoryContents config_dirname wd fs localeCompare dirPath
    = Normal contents /\
    Permutation (map Files.name contents) names /\
    Forall (describes fs dirPath) contents.
Proof.
  intros Hdir Hplain Hstat.
  destruct (promise_all_describes dirPath names Hplain Hstat)
    as (contents & Hall & Hnames & Hdesc).
  exists (Files.array_sort (Files.compare_entries localeCompare) contents).
  unfold Files.getDirectoryContents. rewrite Hdir, Hall.
  assert (Hperm := FilesFacts.array_sort_perm
                     (Files.compare_entries localeCompare) contents).
  split; [done|]. split.
  - rewrite <- Hnames. apply Permutation_map. by symmetry.
  - eapply Permutation_Forall; [exact Hperm|done].
Qed.

End ListingEntries.

Lemma listing_describes_the_directory_witness :
  exists contents,
    Files.getDirectoryContents "/srv/app/src" "/srv/app" Files.demo_fs
      Files.codeCompare "/srv/app/workspace"
    = Normal contents /\
    Permutation (map Files.name contents) ["b.txt"; "src"; "a.txt"] /\
    Forall (describes Files.demo_fs "/srv/app/workspace") contents.
Proof.
  apply (listing_describes_the_directory "/srv/app/src" "/srv/app"
           Files.demo_fs Files.codeCompare "/srv/app/workspace"
           ["b.txt"; "src"; "a.txt"]).
  - reflexivity.
  - repeat constructor; discriminate.
  - repeat constructor; by eexists.
Defined.

(* ------------------------------------------------------------------ *)
(** *** From a listed path back to the entry *)

Lemma endsWithSlash_unsplit xs a :
  xs <> [] -> Forall plain_segment xs ->
  Path.endsWithSlash (a +:+ Path.unsplit xs) = false.
Proof.
  intros Hne Hplain. revert a.
  induction Hplain as [|x xs Hx Hxs IH]; [done|]. intros a.
  destruct Hx as (Hx & _ & _ & Hslash).
  destruct xs as [|y xs].
  - cbn [Path.unsplit]. rewrite endsWithSlash_app by done.
    by apply endsWithSlash_plain.
  - rewrite PathFacts.unsplit_cons by done.
    replace (a +:+ x +:+ "/" +:+ Path.unsplit (y :: xs))
      with ((a +:+ x +:+ "/") +:+ Path.unsplit (y :: xs))
      by (by rewrite !PathFacts.append_assoc).
    by apply IH.
Qed.

(** Joining plain segments below an absolute path of plain segments. *)
Lemma join_plain rs xs :
  rs <> [] -> Forall plain_segment rs ->
  xs <> [] -> Forall plain_segment xs ->
  Path.join [abs_path rs; Path.unsplit xs] = abs_path (rs ++ xs).
Proof.
  intros Hrs Hplain Hxs Hplainx.
  rewrite join_pair by done.
  assert (Hb : Path.unsplit xs <> "").
  { destruct xs as [|x xs]; [done|]. apply PathFacts.unsplit_nonempty.
    apply plain_nonempty. by inversion Hplainx. }
  apply String.eqb_neq in Hb. rewrite Hb.
  change (abs_path rs +:+ "/" +:+ Path.unsplit xs)
    with ("/" +:+ (Path.unsplit rs +:+ "/" +:+ Path.unsplit xs)).
  rewrite (normalize_below_exact rs xs).
  - rewrite PathFacts.filter_kept_plain by done.
    replace ("/" +:+ Path.unsplit rs +:+ "/" +:+ Path.unsplit xs)
      with (("/" +:+ Path.unsplit rs +:+ "/") +:+ Path.unsplit xs)
      by (by rewrite !PathFacts.append_assoc).
    rewrite endsWithSlash_unsplit by done.
    by rewrite PathFacts.append_nil_r.
  - done.
  - done.
  - by apply PathFacts.plain_no_dotdot.
  - rewrite PathFacts.split_app_slash.
    by rewrite !PathFacts.split_unsplit by (done || by apply PathFacts.plain_no_slash).
Qed.

Lemma resolve_abs wd xs :
  xs <> [] -> Forall plain_segment xs ->
  Path.resolveSegments wd (abs_path xs) = xs.
Proof.
  intros Hne Hplain. unfold Path.resolveSegments.
  change (Path.isAbsolute (abs_path xs)) with true. cbv iota.
  change (Path.split (abs_path xs))
    with (EmptyString :: Path.split (Path.unsplit xs)).
  rewrite PathFacts.split_unsplit by (done || by apply PathFacts.plain_no_slash).
  rewrite PathFacts.normalizeSegments_no_dotdot
    by (constructor; [done|by apply PathFacts.plain_no_dotdot]).
  cbn [rev app List.filter]. change (kept "") with false. cbv iota.
  by apply PathFacts.filter_kept_plain.
Qed.

Lemma dropCommon_app ws rest :
  Path.dropCommon ws (ws ++ rest) = ([], rest).
Proof.
  induction ws as [|x ws IH]; [by destruct rest|].
  cbn [app Path.dropCommon]. by rewrite String.eqb_refl.
Qed.

Lemma replaceBackslashes_id s :
  JsString.includes s "\" = false -> JsString.replaceBackslashes s = s.
Proof.
  induction s as [|c s IH]; [done|]. intros Hs.
  rewrite includes_char_cons in Hs. apply orb_false_elim in Hs as [Hc Hs].
  cbn [JsString.replaceBackslashes]. rewrite Ascii.eqb_sym, Hc. by rewrite IH.
Qed.

Lemma unsplit_no_backslash xs :
  Forall (fun s => JsString.includes s "\" = false) xs ->
  JsString.includes (Path.unsplit xs) "\" = false.
Proof.
  induction 1 as [|x xs Hx Hxs IH]; [done|].
  destruct xs as [|y xs]; [done|].
  rewrite PathFacts.unsplit_cons by done.
  by rewrite !includes_char_app, Hx, IH.
Qed.

(** The path the listing reports for an entry, and where it leads. *)
Lemma listed_path_plain config_dirname wd ws ds n :
  Files.workspacePath config_dirname = abs_path ws ->
  ws <> [] -> Forall plain_segment ws ->
  Forall plain_segment ds -> plain_segment n ->
  Forall (fun s => JsString.includes s "\" = false) (ds ++ [n]) ->
  Path.join [abs_path (ws ++ ds); n] = abs_path (ws ++ ds ++ [n]) /\
  Files.listed_path config_dirname wd (abs_path (ws ++ ds)) n =
    Path.unsplit (ds ++ [n]) /\
  Path.join [Files.workspacePath config_dirname; Path.unsplit (ds ++ [n])] =
    abs_path (ws ++ ds ++ [n]).
Proof.
  intros Hroot Hws Hplain Hds Hn Hback.
  assert (Hwd : Forall plain_segment (ws ++ ds)) by (by apply Forall_app).
  assert (Hdn : Forall plain_segment (ds ++ [n]))
    by (apply Forall_app; split; [done|by constructor]).
  assert (Hentry : Path.join [abs_path (ws ++ ds); n] = abs_path (ws ++ ds ++ [n])).
  { change n with (Path.unsplit [n]) at 1.
    rewrite join_plain; [by rewrite <- app_assoc|by destruct ws|done|done|].
    by constructor. }
  split; [done|]. split.
  - unfold Files.listed_path, Path.relative. rewrite Hentry, Hroot.
    assert (Hall : Forall plain_segment (ws ++ ds ++ [n]))
      by (by apply Forall_app).
    rewrite (resolve_abs wd ws) by done.
    rewrite (resolve_abs wd (ws ++ ds ++ [n])) by (done || by destruct ws).
    rewrite dropCommon_app. cbn [map app].
    apply replaceBackslashes_id. by apply unsplit_no_backslash.
  - rewrite Hroot. apply join_plain; [done|done|by destruct ds|done].
Qed.

Lemma promise_all_In {A B} (f : A -> completion B) names l :
  Files.promise_all (map f names) = Normal l ->
  Forall (fun e => exists n, In n names /\ f n = Normal e) l.
Proof.
  revert l. induction names as [|n names IH]; intros l; cbn [map Files.promise_all].
  - intros [= <-]. constructor.
  - destruct (f n) as [e|] eqn:He; [|discriminate].
    destruct (Files.promise_all (map f names)) as [l'|]; [|discriminate].
    intros [= <-]. constructor.
    + exists n. split; [by left|done].
    + eapply Forall_impl; [by apply IH|].
      intros e' (n' & Hin & Hn'). exists n'. split; [by right|done].
Qed.

Section ListedPaths.
Variable config_dirname : string.
Variable wd : string.
Variable fs : Files.FileSystem.
Variable localeCompare : string -> string -> Z.

Lemma entry_info_fields dirPath n e :
  Files.entry_info config_dirname wd fs dirPath n = Normal e ->
  Files.name e = Path.basename (Path.join [dirPath; n]) /\
  Files.path e = Files.listed_path config_dirname wd dirPath n.
Proof.
  unfold Files.entry_info, Files.getFileInfo.
  destruct (Files.stat fs _) as [st|]; [|discriminate].
  cbn [Files.type].
  destruct (Files.getFileType fs _).
  - destruct (Files.readdir fs _); by intros [= <-].
  - by intros [= <-].
Qed.

(** X13. The path a listing reports for an entry leads back to that
    entry. For a directory at the segments [ds] below the workspace
    whose entries have plain names, with no backslash in any of these
    names, every entry of the listing has for [path] the segments [ds]
    followed by its name, joined by slashes; and joining that path to
    the workspace path, as the read and delete routes of the router do
    with the path they are given, yields the very path the entry was
    examined under. *)
Theorem listed_paths_lead_back_to_entries
    (ws ds names : list string) (contents : list Files.FileInfo) :
  Files.workspacePath config_dirname = abs_path ws ->
  ws <> [] ->
  Forall plain_segment ws ->
  Forall plain_segment ds ->
  Files.readdir fs (abs_path (ws ++ ds)) = Some names ->
  Forall plain_segment names ->
  Forall (fun s => JsString.includes s "\" = false) (ds ++ names) ->
  Files.getDirectoryContents config_dirname wd fs localeCompare
    (abs_path (ws ++ ds)) = Normal contents ->
  Forall (fun e =>
    In (Files.name e) names /\
    Files.path e = Path.unsplit (ds ++ [Files.name e]) /\
    Path.join [Files.workspacePath config_dirname; Files.path e] =
      Path.join [abs_path (ws ++ ds); Files.name e]) contents.
Proof.
  intros Hroot Hws Hplain Hds Hdir Hnames Hback.
  unfold Files.getDirectoryContents. rewrite Hdir.
  destruct (Files.promise_all _) as [l|] eqn:Hall; [|discriminate].
  intros [= <-].
  eapply Permutation_Forall;
    [apply (FilesFacts.array_sort_perm (Files.compare_entries localeCompare))|].
  eapply Forall_impl; [exact (promise_all_In _ _ _ Hall)|].
  intros e (n & Hin & He). cbv beta.
  apply entry_info_fields in He as [Hname Hpath].
  rewrite Forall_forall in Hnames.
  assert (Hn : plain_segment n) by (by apply Hnames, list_elem_of_In).
  rewrite basename_join in Hname by done.
  assert (Hbn : Forall (fun s => JsString.includes s "\" = false) (ds ++ [n])).
  { apply Forall_app in Hback as [Hb1 Hb2]. apply Forall_app. split; [done|].
    constructor; [|done]. rewrite Forall_forall in Hb2.
    by apply Hb2, list_elem_of_In. }
  destruct (listed_path_plain config_dirname wd ws ds n
              Hroot Hws Hplain Hds Hn Hbn) as (Hentry & Hlisted & Hjoin).
  rewrite Hname, Hpath, Hlisted, Hjoin, Hentry. by repeat split.
Qed.

End ListedPaths.

Lemma listed_paths_lead_back_to_entries_witness :
  exists contents,
    Files.getDirectoryContents "/srv/app/src" "/srv/app" Files.demo_fs
      Files.codeCompare "/srv/app/workspace" = Normal contents /\
    Forall (fun e =>
      In (Files.name e) ["b.txt"; "src"; "a.txt"] /\
      Files.path e = Path.unsplit ([] ++ [Files.name e]) /\
      Path.join [Files.workspacePath "/srv/app/src"; Files.path e] =
        Path.join ["/srv/app/workspace"; Files.name e]) contents.
Proof.
  eexists. split; [reflexivity|].
  apply (listed_paths_lead_back_to_entries "/srv/app/src" "/srv/app"
           Files.demo_fs Files.codeCompare
           ["srv"; "app"; "workspace"] [] ["b.txt"; "src"; "a.txt"]).
  - reflexivity.
  - discriminate.
  - repeat constructor; discriminate.
  - constructor.
  - reflexivity.
  - repeat constructor; discriminate.
  - repeat constructor.
  - reflexivity.
Defined.
